(** * NeoNet go-consensus: ledger store and PBFT vote accumulation

    A shallow embedding of the Go consensus node: the hash-chained ledger
    ([Block], [Blockchain], [calculateHash], [mine], [GenerateBlock],
    [AddBlock], [ReplaceChain], [LoadFromFile], [VerifyBlockSignature]),
    the handling of a peer's "block" message, and the PBFT handlers
    ([HandleVote], [HandlePBFTPrepare], [HandlePBFTCommit],
    [getValidatorList]).

    Conventions.
    - Go's [int] is a 64-bit two's complement integer: it is a [Z] and
      every addition on a block field is wrapped by [wrap_int]; the
      arithmetic on slice and map lengths cannot overflow and is plain.
    - Go strings are byte strings: [string] of the standard library.
    - [*Block] is modelled by the block it points to; nil entries of a
      [[]*Block] are outside the model.
    - The functions of the ledger come twice. Outside module [Mu] each is
      the body of its critical section, the mutex calls erased; module
      [Mu] has them with [bc.mu], as shipped. The two agree for
      [ReplaceChain], [LoadFromFile] and [Latest]; they differ for
      [AddBlock], which calls [Latest] while it holds the write lock.
      [pbftMu], [voteLock] and [peersMu] are taken once around plain
      map operations and are not modelled.
    - SHA-256 and hexadecimal coding are executable; Ed25519 itself is a
      parameter of the development. *)

From Stdlib Require Import ZArith List String Ascii Lia Bool DecimalString.
From stdpp Require Import gmap strings.
Import ListNotations.

#[local] Set Warnings "-clear-no-such-hyp".

Local Open Scope string_scope.
Local Open Scope list_scope.
Local Open Scope Z_scope.

(** ** crypto/sha256 (FIPS 180-4), on 32-bit words held in [Z] *)

Module SHA256.

Definition w32 (x : Z) : Z := Z.land x 4294967295.

Definition add32 (x y : Z) : Z := w32 (x + y).

Definition rotr (n x : Z) : Z :=
  Z.lor (Z.shiftr x n) (w32 (Z.shiftl x (32 - n))).

Definition not32 (x : Z) : Z := Z.lxor x 4294967295.

Definition choose (e f g : Z) : Z :=
  Z.lxor (Z.land e f) (Z.land (not32 e) g).

Definition majority (a b c : Z) : Z :=
  Z.lxor (Z.lxor (Z.land a b) (Z.land a c)) (Z.land b c).

Definition big_sigma0 (a : Z) : Z :=
  Z.lxor (Z.lxor (rotr 2 a) (rotr 13 a)) (rotr 22 a).

Definition big_sigma1 (e : Z) : Z :=
  Z.lxor (Z.lxor (rotr 6 e) (rotr 11 e)) (rotr 25 e).

Definition small_sigma0 (x : Z) : Z :=
  Z.lxor (Z.lxor (rotr 7 x) (rotr 18 x)) (Z.shiftr x 3).

Definition small_sigma1 (x : Z) : Z :=
  Z.lxor (Z.lxor (rotr 17 x) (rotr 19 x)) (Z.shiftr x 10).

(** The round constants are the first 32 fractional bits of the cube
    roots of the first 64 primes, the initial state those of the square
    roots of the first 8; both are computed here rather than tabulated. *)

Definition primes64 : list Z :=
  [2; 3; 5; 7; 11; 13; 17; 19; 23; 29; 31; 37; 41; 43; 47; 53;
   59; 61; 67; 71; 73; 79; 83; 89; 97; 101; 103; 107; 109; 113; 127; 131;
   137; 139; 149; 151; 157; 163; 167; 173; 179; 181; 191; 193; 197; 199;
   211; 223; 227; 229; 233; 239; 241; 251; 257; 263; 269; 271; 277; 281;
   283; 293; 307; 311].

(** Integer cube root by bisection on [lo, hi). *)
Fixpoint cbrt_bisect (fuel : nat) (n lo hi : Z) : Z :=
  match fuel with
  | O => lo
  | S k =>
      if hi - lo <=? 1 then lo
      else
        let mid := (lo + hi) / 2 in
        if mid * mid * mid <=? n then cbrt_bisect k n mid hi
        else cbrt_bisect k n lo mid
  end.

Definition cbrt (n : Z) : Z := cbrt_bisect 200 n 0 (2 ^ 40).

Definition round_constants : list Z :=
  Eval vm_compute in map (fun p => w32 (cbrt (p * 2 ^ 96))) primes64.

Definition initial_state : list Z :=
  Eval vm_compute in map (fun p => w32 (Z.sqrt (p * 2 ^ 64))) (firstn 8 primes64).

Definition byte_of_ascii (c : ascii) : Z := Z.of_N (N_of_ascii c).

Definition bytes_of_string (s : string) : list Z :=
  map byte_of_ascii (list_ascii_of_string s).

Definition be_bytes (width : nat) (x : Z) : list Z :=
  map (fun i => Z.land (Z.shiftr x (8 * Z.of_nat i)) 255) (rev (seq 0 width)).

Definition pad (msg : list Z) : list Z :=
  let len := Z.of_nat (length msg) in
  let zeros := Z.to_nat ((55 - len) mod 64) in
  msg ++ [128] ++ repeat 0 zeros ++ be_bytes 8 (8 * len).

Fixpoint be_words (bs : list Z) : list Z :=
  match bs with
  | b0 :: b1 :: b2 :: b3 :: rest =>
      (Z.shiftl b0 24 + Z.shiftl b1 16 + Z.shiftl b2 8 + b3) :: be_words rest
  | _ => []
  end.

(** Message schedule: [win] holds the last 16 words, oldest first. *)
Fixpoint expand (n : nat) (win : list Z) : list Z :=
  match n with
  | O => []
  | S k =>
      let w := add32 (add32 (small_sigma1 (nth 14 win 0)) (nth 9 win 0))
                     (add32 (small_sigma0 (nth 1 win 0)) (nth 0 win 0)) in
      w :: expand k (tl win ++ [w])
  end.

Definition schedule (block : list Z) : list Z := block ++ expand 48 block.

Record regs := Regs { ra : Z; rb : Z; rc : Z; rd : Z; re : Z; rf : Z; rg : Z; rh : Z }.

Definition round (s : regs) (kw : Z * Z) : regs :=
  let t1 := add32 (add32 (add32 (rh s) (big_sigma1 (re s)))
                         (add32 (choose (re s) (rf s) (rg s)) (fst kw))) (snd kw) in
  let t2 := add32 (big_sigma0 (ra s)) (majority (ra s) (rb s) (rc s)) in
  Regs (add32 t1 t2) (ra s) (rb s) (rc s) (add32 (rd s) t1) (re s) (rf s) (rg s).

Definition compress (s : regs) (block : list Z) : regs :=
  let t := fold_left round (combine round_constants (schedule block)) s in
  Regs (add32 (ra s) (ra t)) (add32 (rb s) (rb t)) (add32 (rc s) (rc t))
       (add32 (rd s) (rd t)) (add32 (re s) (re t)) (add32 (rf s) (rf t))
       (add32 (rg s) (rg t)) (add32 (rh s) (rh t)).

Fixpoint chunks16 (fuel : nat) (ws : list Z) : list (list Z) :=
  match fuel, ws with
  | S k, _ :: _ => firstn 16 ws :: chunks16 k (skipn 16 ws)
  | _, _ => []
  end.

Definition start : regs :=
  match initial_state with
  | [a; b; c; d; e; f; g; h] => Regs a b c d e f g h
  | _ => Regs 0 0 0 0 0 0 0 0
  end.

Definition digest_bytes (s : regs) : list Z :=
  be_bytes 4 (ra s) ++ be_bytes 4 (rb s) ++ be_bytes 4 (rc s) ++ be_bytes 4 (rd s) ++
  be_bytes 4 (re s) ++ be_bytes 4 (rf s) ++ be_bytes 4 (rg s) ++ be_bytes 4 (rh s).

(** [sha256.Sum256] *)
Definition Sum256 (msg : list Z) : list Z :=
  let ws := be_words (pad msg) in
  digest_bytes (fold_left compress (chunks16 (length ws) ws) start).

End SHA256.

(** ** encoding/hex *)

Module Hex.

Definition hextable : string := "0123456789abcdef".

Definition digit (n : Z) : ascii :=
  match String.get (Z.to_nat n) hextable with
  | Some c => c
  | None => "0"%char
  end.

(** [hex.EncodeToString] *)
Fixpoint EncodeToString (bs : list Z) : string :=
  match bs with
  | [] => ""
  | b :: rest =>
      String (digit (Z.shiftr b 4)) (String (digit (Z.land b 15)) (EncodeToString rest))
  end.

(** [fromHexChar]: both letter cases are accepted. *)
Definition fromHexChar (c : ascii) : option Z :=
  let n := Z.of_N (N_of_ascii c) in
  if (48 <=? n) && (n <=? 57) then Some (n - 48)
  else if (97 <=? n) && (n <=? 102) then Some (n - 97 + 10)
  else if (65 <=? n) && (n <=? 70) then Some (n - 65 + 10)
  else None.

(** [hex.DecodeString]: [None] stands for the error result (a byte that
    is not a hexadecimal digit, or an odd length). *)
Fixpoint DecodeString (s : string) : option (list Z) :=
  match s with
  | EmptyString => Some []
  | String _ EmptyString => None
  | String c1 (String c2 rest) =>
      match fromHexChar c1, fromHexChar c2, DecodeString rest with
      | Some h, Some l, Some bs => Some (h * 16 + l :: bs)
      | _, _, _ => None
      end
  end.

End Hex.

(** [fmt.Sprintf("%d", n)] *)
Definition sprint_d (n : Z) : string := NilZero.string_of_int (Z.to_int n).

Definition sha256_hex (s : string) : string :=
  Hex.EncodeToString (SHA256.Sum256 (SHA256.bytes_of_string s)).

(** ** The ledger store (blockchain.go) *)

(** Two's complement wrap-around of Go's 64-bit [int]. *)
Definition wrap_int (x : Z) : Z := (x + 2 ^ 63) mod 2 ^ 64 - 2 ^ 63.

Definition add_int (x y : Z) : Z := wrap_int (x + y).
Arguments wrap_int : simpl never.
Arguments add_int : simpl never.

Record Block := mkBlock {
  PubKey : string;
  Signature : string;
  Index : Z;
  Timestamp : string;
  Data : string;
  PrevHash : string;
  Hash : string;
  Nonce : Z
}.

Definition set_Hash (h : string) (b : Block) : Block :=
  mkBlock (PubKey b) (Signature b) (Index b) (Timestamp b) (Data b) (PrevHash b) h (Nonce b).

Definition set_Nonce (n : Z) (b : Block) : Block :=
  mkBlock (PubKey b) (Signature b) (Index b) (Timestamp b) (Data b) (PrevHash b) (Hash b) n.

Definition set_Data (d : string) (b : Block) : Block :=
  mkBlock (PubKey b) (Signature b) (Index b) (Timestamp b) d (PrevHash b) (Hash b) (Nonce b).

Definition set_Signature (sig pub : string) (b : Block) : Block :=
  mkBlock pub sig (Index b) (Timestamp b) (Data b) (PrevHash b) (Hash b) (Nonce b).

(** [Blockchain.chain]; the mutex field has no counterpart. *)
Record Blockchain := mkChain { chain : list Block }.

Definition NewBlockchain : Blockchain := mkChain [].

(** [calculateHash]: the digest of
    [fmt.Sprintf("%d%s%s%s%d", Index, Timestamp, Data, PrevHash, Nonce)]. *)
Definition record (b : Block) : string :=
  sprint_d (Index b) +:+ Timestamp b +:+ Data b +:+ PrevHash b +:+ sprint_d (Nonce b).

Definition calculateHash (b : Block) : string := sha256_hex (record b).
Arguments sha256_hex : simpl never.
Arguments calculateHash : simpl never.

(** [CreateGenesis]; [now] is [time.Now().UTC().Format(time.RFC3339)]. *)
Definition CreateGenesis (now : string) (bc : Blockchain) : Blockchain :=
  let gen := mkBlock "" "" 0 now "genesis" "" "" 0 in
  mkChain (chain bc ++ [set_Hash (calculateHash gen) gen]).

(** [Latest]: [None] is the nil pointer returned on an empty chain. *)
Definition Latest (bc : Blockchain) : option Block := last (chain bc).

Definition difficulty : Z := 2.

(** [stringsRepeat] *)
Fixpoint repeat_loop (s : string) (n : nat) (out : string) : string :=
  match n with
  | O => out
  | S k => repeat_loop s k (out +:+ s)
  end.

Definition stringsRepeat (s : string) (count : Z) : string :=
  if count <=? 0 then "" else repeat_loop s (Z.to_nat count) "".

(** The test [h[:difficulty] == stringsRepeat("0", difficulty)] of [mine];
    [h] is a 64-character digest, so the slice is always in range. *)
Definition sealed (h : string) : bool :=
  String.eqb (substring 0 (Z.to_nat difficulty) h) (stringsRepeat "0" difficulty).

(** [mine]: the source loops until a nonce seals the block; [fuel] bounds
    the number of iterations and [None] means it was exhausted. *)
Arguments sealed : simpl never.

Fixpoint mine (fuel : nat) (b : Block) : option Block :=
  match fuel with
  | O => None
  | S k =>
      let b1 := set_Nonce (add_int (Nonce b) 1) b in
      let h := calculateHash b1 in
      if sealed h then Some (set_Hash h b1) else mine k b1
  end.

(** [GenerateBlock] *)
Definition GenerateBlock (fuel : nat) (now : string) (data : string)
    (bc : Blockchain) : option Block :=
  let '(idx, prev) :=
    match Latest bc with
    | None => (1, "")
    | Some latest => (add_int (Index latest) 1, Hash latest)
    end in
  mine fuel (mkBlock "" "" idx now data prev "" 0).

(** The statements of [AddBlock] between [Lock] and [Unlock], with
    [bc.Latest()] read as the last block of the chain: what a call would
    return if [Latest] took no lock. The function as shipped is
    [Mu.AddBlock]. The returned pair is the boolean result and the chain
    after the call. *)
Definition AddBlock (b : Block) (bc : Blockchain) : bool * Blockchain :=
  match Latest bc with
  | Some latest =>
      if negb (Index b =? add_int (Index latest) 1) then (false, bc)
      else if negb (String.eqb (PrevHash b) (Hash latest)) then (false, bc)
      else if negb (String.eqb (calculateHash b) (Hash b)) then (false, bc)
      else (true, mkChain (chain bc ++ [b]))
  | None => (true, mkChain (chain bc ++ [b]))
  end.

(** The test of one iteration of the validation loops of [ReplaceChain]
    and [LoadFromFile]: [true] when the pair is rejected. *)
Definition bad_link (prev curr : Block) : bool :=
  negb (String.eqb (PrevHash curr) (Hash prev))
  || negb (String.eqb (calculateHash curr) (Hash curr)).

(** The loop [for i := 1; i < len(arr); i++] with [prev = arr[i-1]] and
    [curr = arr[i]]: [first_bad i prev rest] runs it from position [i],
    where [rest] is [arr[i:]], and returns the position at which the loop
    body returns, if any. *)
Fixpoint first_bad (i : nat) (prev : Block) (rest : list Block) : option nat :=
  match rest with
  | [] => None
  | curr :: rest' =>
      if bad_link prev curr then Some i else first_bad (S i) curr rest'
  end.

Definition validate (arr : list Block) : option nat :=
  match arr with
  | [] => None
  | b0 :: rest => first_bad 1 b0 rest
  end.

(** [ReplaceChain] *)
Definition ReplaceChain (newChain : list Block) (bc : Blockchain) : bool * Blockchain :=
  if (length newChain <=? length (chain bc))%nat then (false, bc)
  else
    match validate newChain with
    | Some _ => (false, bc)
    | None => (true, mkChain newChain)
    end.

(** What [ioutil.ReadFile] followed by [json.Unmarshal] into a
    [[]*Block] yields. *)
Inductive file_content :=
  | ReadFailed
  | UnmarshalFailed
  | Decoded (arr : list Block).

Inductive load_error :=
  | ErrRead
  | ErrUnmarshal
  | ErrEmptyChain
  | ErrInvalidChainAt (i : nat).

(** The text of the [error] values built with [fmt.Errorf]. *)
Definition error_text (e : load_error) : string :=
  match e with
  | ErrRead => "read"
  | ErrUnmarshal => "unmarshal"
  | ErrEmptyChain => "empty chain"
  | ErrInvalidChainAt i => "invalid chain at index " +:+ sprint_d (Z.of_nat i)
  end.

(** [LoadFromFile]: [None] is the nil error. *)
Definition LoadFromFile (file : file_content) (bc : Blockchain)
    : option load_error * Blockchain :=
  match file with
  | ReadFailed => (Some ErrRead, bc)
  | UnmarshalFailed => (Some ErrUnmarshal, bc)
  | Decoded arr =>
      if (length arr =? 0)%nat then (Some ErrEmptyChain, bc)
      else
        match validate arr with
        | Some i => (Some (ErrInvalidChainAt i), bc)
        | None => (None, mkChain arr)
        end
  end.

(** ** Block signatures and the handling of a peer's block *)

(** A Go call either returns or panics. *)
Inductive outcome (A : Type) : Type :=
  | Ret (a : A)
  | Panic.
Arguments Ret {A} a.
Arguments Panic {A}.

(** [CommitMsg] *)
Record CommitMsg := mkCommit {
  c_View : Z; c_Seq : Z; c_Hash : string; c_Voter : string; c_Sig : string
}.

(** Effects a handler leaves behind, in program order. [PostCommit addr
    cm] is the goroutine started for the roster entry [addr]; it posts
    [cm] to the fixed URL http://127.0.0.1:8080/pbft/commit. *)
Inductive effect :=
  | PostBlockToAI (b : Block)
  | BroadcastBlock (b : Block)
  | SendRequestChain
  | HttpError (text : string) (code : Z)
  | HttpWrite (body : string)
  | PostCommit (addr : string) (cm : CommitMsg)
  | BridgeCommitBlock (h : string)
  | LogCommitted (what : string) (cnt total : nat).

Section Node.

(** The curve arithmetic of [ed25519.Verify] on a 32-byte key and a
    64-byte signature. *)
Variable ed25519_check : list Z -> list Z -> list Z -> bool.

(** [signMessage]: the hexadecimal signature under the key of
    keys/node_priv.hex; the empty string when no key can be read. *)
Variable signMessage : string -> string.

(** [ed25519.Verify] panics on a public key of the wrong size and
    rejects a signature of the wrong size. *)
Definition ed25519_Verify (pub msg sig : list Z) : outcome bool :=
  if negb (length pub =? 32)%nat then Panic
  else if negb (length sig =? 64)%nat then Ret false
  else Ret (ed25519_check pub msg sig).

(** [VerifyBlockSignature] *)
Definition VerifyBlockSignature (b : Block) : outcome bool :=
  if String.eqb (Signature b) "" || String.eqb (PubKey b) "" then Ret false
  else
    match Hex.DecodeString (PubKey b) with
    | None => Ret false
    | Some pub =>
        match Hex.DecodeString (Signature b) with
        | None => Ret false
        | Some sig =>
            ed25519_Verify pub (SHA256.bytes_of_string (calculateHash b)) sig
        end
    end.

(** [handleConn], case "block": [b] is what [json.Unmarshal] left in the
    fresh [Block]. The [else] belongs to the test of [AddBlock]. *)
Definition handleBlock (b : Block) (bc : Blockchain)
    : outcome (Blockchain * list effect) :=
  match VerifyBlockSignature b with
  | Panic => Panic
  | Ret false => Ret (bc, [])
  | Ret true =>
      match AddBlock b bc with
      | (true, bc') => Ret (bc', [PostBlockToAI b; BroadcastBlock b])
      | (false, bc') => Ret (bc', [SendRequestChain])
      end
  end.

(** One turn of the loop of [handleBlockMessages] (gossip): [from_self]
    is the test [msg.ReceivedFrom == lpn.host.ID()] and [body] the result
    of [json.Unmarshal], [None] on error. *)
Definition handleBlockMessage (from_self : bool) (body : option Block)
    (bc : Blockchain) : outcome (Blockchain * list effect) :=
  if from_self then Ret (bc, [])
  else
    match body with
    | None => Ret (bc, [])
    | Some b =>
        match VerifyBlockSignature b with
        | Panic => Panic
        | Ret false => Ret (bc, [])
        | Ret true =>
            match AddBlock b bc with
            | (true, bc') => Ret (bc', [PostBlockToAI b])
            | (false, bc') => Ret (bc', [])
            end
        end
    end.

(** ** PBFT structures and handlers *)

Record Vote := mkVote {
  BlockHash : string; VoterPub : string; v_Signature : string; Round : Z
}.

Record PrepareMsg := mkPrepare {
  p_View : Z; p_Seq : Z; p_Hash : string; p_Voter : string; p_Sig : string
}.

(** The package-level maps [votesMap], [prepares] and [commits]. *)
Record PBFT := mkPBFT {
  votesMap : gmap string (gmap string Vote);
  prepares : gmap Z (gmap string PrepareMsg);
  commits : gmap Z (gmap string CommitMsg)
}.

Definition pbft_init : PBFT := mkPBFT ∅ ∅ ∅.

(** What the handlers read of the node and of its working directory:
    [validators_file] is [None] when validators.json cannot be read, and
    otherwise the slice [json.Unmarshal] leaves in [out]. *)
Record Node := mkNode {
  Port : string;
  peers : gset string;
  validators_file : option (list string)
}.

(** [getPeerList]: the keys of the peer map. Go ranges over a map in an
    order that may differ from one call to the next; the list here is one
    such order, and only its length and its members are meaningful. *)
Definition getPeerList (n : Node) : list string := elements (peers n).

(** [getValidatorList] *)
Definition getValidatorList (n : Node) : list string :=
  match validators_file n with
  | Some out => if (0 <? length out)%nat then out else getPeerList n
  | None => getPeerList n
  end.

(** [(2*len(validators))/3 + 1] *)
Definition needed (validators : list string) : nat :=
  (2 * length validators / 3 + 1)%nat.

(** The string [fmt.Sprintf("%s:%d:%d", hash, seq, view)] that
    [signMessage] is given. *)
Definition vote_text (hash : string) (seq view : Z) : string :=
  hash +:+ ":" +:+ sprint_d seq +:+ ":" +:+ sprint_d view.

(** The response body [{"ok":true}]. *)
Definition dquote : string := String (ascii_of_nat 34) EmptyString.

Definition ok_body : string := "{" +:+ dquote +:+ "ok" +:+ dquote +:+ ":true}".

(** [m[k]] on a map of maps, the nil map reading as empty. *)
Definition inner {K V} `{Countable K} (m : gmap K (gmap string V)) (k : K)
    : gmap string V := default ∅ (m !! k).

(** [HandlePBFTPrepare]; [body] is [None] when the request does not
    decode. *)
Definition HandlePBFTPrepare (body : option PrepareMsg) (n : Node) (st : PBFT)
    : PBFT * list effect :=
  match body with
  | None => (st, [HttpError "invalid" 400])
  | Some pm =>
      let set := <[p_Voter pm := pm]> (inner (prepares st) (p_Seq pm)) in
      let st' := mkPBFT (votesMap st) (<[p_Seq pm := set]> (prepares st)) (commits st) in
      let cnt := size set in
      let val := getValidatorList n in
      let need := needed val in
      let sends :=
        if (need <=? cnt)%nat then
          let cm := mkCommit (p_View pm) (p_Seq pm) (p_Hash pm) (":" +:+ Port n)
                      (signMessage (vote_text (p_Hash pm) (p_Seq pm) (p_View pm))) in
          map (fun addr => PostCommit addr cm) val
        else [] in
      (st', sends ++ [HttpWrite ok_body])
  end.

(** [HandlePBFTCommit] *)
Definition HandlePBFTCommit (body : option CommitMsg) (n : Node) (st : PBFT)
    : PBFT * list effect :=
  match body with
  | None => (st, [HttpError "invalid" 400])
  | Some cm =>
      let set := <[c_Voter cm := cm]> (inner (commits st) (c_Seq cm)) in
      let st' := mkPBFT (votesMap st) (prepares st) (<[c_Seq cm := set]> (commits st)) in
      let cnt := size set in
      let val := getValidatorList n in
      let need := needed val in
      let done :=
        if (need <=? cnt)%nat then
          [BridgeCommitBlock (c_Hash cm);
           LogCommitted ("seq " +:+ sprint_d (c_Seq cm)) cnt (length val)]
        else [] in
      (st', done ++ [HttpWrite ok_body])
  end.

(** [HandleVote]: the signed text is [fmt.Sprintf("%s:%d", hash, round)]. *)
Definition HandleVote (body : option Vote) (n : Node) (st : PBFT)
    : outcome (PBFT * list effect) :=
  match body with
  | None => Ret (st, [HttpError "invalid vote" 400])
  | Some v =>
      match Hex.DecodeString (VoterPub v) with
      | None => Ret (st, [HttpError "bad pub" 400])
      | Some pubb =>
          match Hex.DecodeString (v_Signature v) with
          | None => Ret (st, [HttpError "bad sig" 400])
          | Some sigb =>
              let msg := SHA256.bytes_of_string (BlockHash v +:+ ":" +:+ sprint_d (Round v)) in
              match ed25519_Verify pubb msg sigb with
              | Panic => Panic
              | Ret false => Ret (st, [HttpError "invalid signature" 400])
              | Ret true =>
                  let set := <[VoterPub v := v]> (inner (votesMap st) (BlockHash v)) in
                  let st' := mkPBFT (<[BlockHash v := set]> (votesMap st))
                                    (prepares st) (commits st) in
                  let validators := getValidatorList n in
                  let count := size set in
                  let log :=
                    if (needed validators <=? count)%nat then
                      [LogCommitted ("block " +:+ BlockHash v) count (length validators)]
                    else [] in
                  Ret (st', log ++ [HttpWrite ("{" +:+ dquote +:+ "ok" +:+ dquote +:+ ":true,"
                                      +:+ dquote +:+ "votes" +:+ dquote +:+ ":"
                                      +:+ sprint_d (Z.of_nat count) +:+ "}")])
              end
          end
      end
  end.

End Node.

(** ** Running examples: a node started at a fixed instant *)

Definition t0 : string := "2024-01-01T00:00:00Z".

Definition genesis_chain : Blockchain := CreateGenesis t0 NewBlockchain.

Definition genesis_block : Block :=
  mkBlock "" "" 0 t0 "genesis" ""
    "9f997a22f6f3e03fd77ef4b68bf58e59b0224dccb4b24e5aa074be50cec8b31d" 0.

Definition block1 : Block :=
  mkBlock "" "" 1 t0 "hello"
    "9f997a22f6f3e03fd77ef4b68bf58e59b0224dccb4b24e5aa074be50cec8b31d"
    "006e490093d9be29bb66664051747d6bd5a3fd4e61381291deec33f3416e9519" 166.

Definition block2 : Block :=
  mkBlock "" "" 2 "2024-01-01T00:01:00Z" "pay alice 5"
    "006e490093d9be29bb66664051747d6bd5a3fd4e61381291deec33f3416e9519"
    "0050e7c3113d77ec05538df3c79359d9b6e080afd24b8c070571c75506569ea0" 524.

Definition block3 : Block :=
  mkBlock "" "" 3 "2024-01-01T00:02:00Z" "pay bob 7"
    "0050e7c3113d77ec05538df3c79359d9b6e080afd24b8c070571c75506569ea0"
    "005cb46ba367152552623c88fc078635caac349f2972a4d3ee23baf18c38b024" 328.

Definition block4 : Block :=
  mkBlock "" "" 4 "2024-01-01T00:03:00Z" "pay carol 1"
    "005cb46ba367152552623c88fc078635caac349f2972a4d3ee23baf18c38b024"
    "0049e4d6e18c76ecb9f8846503d96c0e9d2cdf5bbf30e96708df22f93294eba5" 132.

Definition chain5 : list Block :=
  [genesis_block; block1; block2; block3; block4].

(** A block that links to the genesis block and carries its own digest,
    but was never mined: its nonce is 0 and its digest starts with 66. *)
Definition unsealed_block : Block :=
  mkBlock "" "" 1 "2024-01-01T00:00:05Z" "free"
    "9f997a22f6f3e03fd77ef4b68bf58e59b0224dccb4b24e5aa074be50cec8b31d"
    "66ce89fac069934e652523b71efaf0c6acdef6c3ab28939c6336465f71ca4a69" 0.

(** A block no check of [AddBlock] would pass. *)
Definition junk_block : Block :=
  mkBlock "" "" (-5) "yesterday" "junk" "nowhere" "not a digest" 42.

(** A block that links to the genesis block by hash but claims index 7. *)
Definition skipped_block : Block :=
  mkBlock "" "" 7 "2024-01-01T00:00:05Z" "gap"
    "9f997a22f6f3e03fd77ef4b68bf58e59b0224dccb4b24e5aa074be50cec8b31d"
    "17d8ac1cb954919e43d57fb556007765276f249a6e05a3df250c14136ede94e4" 0.

(** ** Example data for the node *)

(** A stand-in for the curve check that accepts every well-sized input,
    and the [signMessage] of a node without a key file. *)
Definition accept_all : list Z -> list Z -> list Z -> bool := fun _ _ _ => true.

Definition no_key : string -> string := fun _ => "".

Definition signed_block1 : Block :=
  set_Signature
    ("e5564300c360ac729086e2cc806e828a84877f1eb8e5d974d873e06522490155" +:+
     "5fb8821590a33bacc61e39701cf9b46bd25bf5f0595bbe24655141438e7a100b")
    "d75a980182b10ab7d54bfed3c964073a0ee172f3daa62325af021a68f707511a"
    block1.

(** What [VerifyBlockSignature] establishes when it returns true. *)
Definition signature_verifies (check : list Z -> list Z -> list Z -> bool)
    (b : Block) : Prop :=
  Signature b <> "" /\ PubKey b <> ""
  /\ exists pub sig,
       Hex.DecodeString (PubKey b) = Some pub
       /\ Hex.DecodeString (Signature b) = Some sig
       /\ length pub = 32%nat /\ length sig = 64%nat
       /\ check pub (SHA256.bytes_of_string (calculateHash b)) sig = true.

(** A node on port 8080 with a roster of four validators (quorum 3), and
    one with a roster of one (quorum 1). *)
Definition roster4 : Node := mkNode "8080" ∅ (Some ["v1"; "v2"; "v3"; "v4"]).

Definition roster1 : Node := mkNode "8080" ∅ (Some ["v1"]).

(** Handling a sequence of requests, collecting the effects. *)
Definition run_prepares (sign : string -> string) (n : Node)
    (msgs : list PrepareMsg) (st : PBFT) : PBFT * list effect :=
  fold_left (fun acc pm =>
               let r := HandlePBFTPrepare sign (Some pm) n (fst acc) in
               (fst r, snd acc ++ snd r)) msgs (st, []).

Definition run_commits (n : Node) (msgs : list CommitMsg) (st : PBFT)
    : PBFT * list effect :=
  fold_left (fun acc cm =>
               let r := HandlePBFTCommit (Some cm) n (fst acc) in
               (fst r, snd acc ++ snd r)) msgs (st, []).

(** The number of recorded votes of a set that agree on a view and hash. *)
Definition agreeing_prepares (view : Z) (hash : string)
    (set : gmap string PrepareMsg) : nat :=
  length (filter (fun kv => bool_decide (p_View (snd kv) = view /\ p_Hash (snd kv) = hash))
                 (map_to_list set)).

Definition agreeing_commits (view : Z) (hash : string)
    (set : gmap string CommitMsg) : nat :=
  length (filter (fun kv => bool_decide (c_View (snd kv) = view /\ c_Hash (snd kv) = hash))
                 (map_to_list set)).

(** Three votes at sequence 1 in view 0, for three different hashes. *)
Definition split_prepares : list PrepareMsg :=
  [mkPrepare 0 1 "aa" "v1" ""; mkPrepare 0 1 "bb" "v2" ""; mkPrepare 0 1 "cc" "v3" ""].

Definition split_commits : list CommitMsg :=
  [mkCommit 0 1 "aa" "v1" ""; mkCommit 0 1 "bb" "v2" ""; mkCommit 0 1 "cc" "v3" ""].

(** The state once the first two votes of each phase are recorded. *)
Definition two_votes_state : PBFT :=
  fst (run_commits roster4 (firstn 2 split_commits)
         (fst (run_prepares no_key roster4 (firstn 2 split_prepares) pbft_init))).

(** A vote from outside the roster that carries no signature. *)
Definition unsigned_prepare : PrepareMsg := mkPrepare 0 1 "aa" "mallory" "".

Definition unsigned_commit : CommitMsg := mkCommit 0 1 "aa" "mallory" "".

(** ** Properties stated of the ledger *)

(** The three checks of [AddBlock] against the latest block. *)
Definition admissible (latest b : Block) : Prop :=
  Index b = add_int (Index latest) 1
  /\ PrevHash b = Hash latest
  /\ calculateHash b = Hash b.

(** Every non-genesis block of the chain carries the difficulty prefix. *)
Definition pow_invariant (bc : Blockchain) : Prop :=
  forall b, In b (chain bc) -> 0 < Index b -> sealed (Hash b) = true.

(** The hash-chain condition on positions [j] and [j+1] of an array. *)
Definition linked (arr : list Block) (j : nat) : Prop :=
  forall prev curr,
    arr !! j = Some prev -> arr !! S j = Some curr ->
    PrevHash curr = Hash prev /\ calculateHash curr = Hash curr.

(** ** The rest of the ledger and of the node *)

(** [SignBlock]: [sign] is [ed25519.Sign] on a 64-byte private key; the
    public key [ed25519.PrivateKey(priv).Public()] is the second half of
    the private key. The error, if any, comes with the block unchanged. *)
Inductive sign_error :=
  | ErrPrivHex
  | ErrBadPrivSize.

Definition SignBlock (sign : list Z -> list Z -> list Z) (b : Block)
    (privHex : string) : option sign_error * Block :=
  match Hex.DecodeString privHex with
  | None => (Some ErrPrivHex, b)
  | Some priv =>
      if negb (length priv =? 64)%nat then (Some ErrBadPrivSize, b)
      else
        let msg := calculateHash b in
        let sig := sign priv (SHA256.bytes_of_string msg) in
        (None, set_Signature (Hex.EncodeToString sig)
                 (Hex.EncodeToString (skipn 32 priv)) b)
  end.

(** A stand-in for [ed25519.Sign] that returns 64 zero bytes, and a
    private key of 64 zero bytes in hexadecimal. *)
Definition toy_sign : list Z -> list Z -> list Z := fun _ _ => repeat 0 64.

Definition toy_priv_hex : string :=
  "0000000000000000000000000000000000000000000000000000000000000000" +:+
  "0000000000000000000000000000000000000000000000000000000000000000".

(** A block whose public key decodes to one byte. *)
Definition short_key_block : Block := set_Signature "cd" "ab" block1.

(** A vote whose key and signature have the sizes Ed25519 expects, and
    the same key spelled with capital digits. *)
Definition sample_vote : Vote :=
  mkVote "aa" "d75a980182b10ab7d54bfed3c964073a0ee172f3daa62325af021a68f707511a"
    toy_priv_hex 0.

Definition capital_key : string :=
  "D75A980182B10AB7D54BFED3C964073A0EE172F3DAA62325AF021A68F707511A".

Definition with_VoterPub (pub : string) (v : Vote) : Vote :=
  mkVote (BlockHash v) pub (v_Signature v) (Round v).

(** What the handlers below do besides the effects above. *)
Record PrePrepare := mkPrePrepare {
  pp_View : Z; pp_Seq : Z; pp_Block : option Block; pp_Leader : string; pp_Sig : string
}.

Inductive action :=
  | Do (e : effect)
  | PublishBlock (b : Block)
  | SaveChain (fn : string) (c : list Block)
  | WriteHeader (code : Z)
  | WriteBlock (b : Block)
  | SendPeerList (ps : list string)
  | SendChain (c : list Block)
  | PostPrePrepare (addr : string) (pp : PrePrepare)
  | PostPrepare (addr : string) (pm : PrepareMsg).

(** [handleConn], case "tx". [bridge] is the block of the Rust bridge
    when [callRustSubmitTx] succeeded and answered ok, [keyfile] the
    content of keys/node_priv.hex when it can be read; the error of
    [SignBlock] is dropped. [None]: mining ran out of fuel. *)
Definition handleTx (sign : list Z -> list Z -> list Z) (fuel : nat) (now : string)
    (bridge : option Block) (keyfile : option string) (data : string)
    (bc : Blockchain) : option (Blockchain * list effect) :=
  match (match bridge with
         | Some bb => Some bb
         | None => GenerateBlock fuel now data bc
         end) with
  | None => None
  | Some newB =>
      let newB' := match keyfile with
                   | Some k => snd (SignBlock sign newB k)
                   | None => newB
                   end in
      match AddBlock newB' bc with
      | (true, bc') => Some (bc', [PostBlockToAI newB'; BroadcastBlock newB'])
      | (false, bc') => Some (bc', [])
      end
  end.

(** [addPeer] *)
Definition addPeer (a : string) (n : Node) : Node :=
  if String.eqb a "" then n
  else if decide (a ∈ peers n) then n
  else mkNode (Port n) ({[a]} ∪ peers n) (validators_file n).

(** [handleConn], case "peerList": [pl] is the list [json.Unmarshal]
    left in [pl.Peers]. *)
Definition handlePeerList (pl : list string) (n : Node) : Node * list action :=
  let n' := fold_left (fun acc p => if String.eqb p "" then acc else addPeer p acc) pl n in
  (n', [SendPeerList (getPeerList n')]).

(** [handleConn], cases "requestChain" and "chain". *)
Definition handleRequestChain (bc : Blockchain) : list action := [SendChain (chain bc)].

Definition handleChain (cb : list Block) (bc : Blockchain) : Blockchain :=
  snd (ReplaceChain cb bc).

(** The start of [main]: [NewNode] creates the genesis block, then the
    persisted chain is loaded. In go-consensus/main.go a failure is only
    logged; the other [main] then calls [CreateGenesis] again. *)
Definition NewNode_chain (now : string) : Blockchain := CreateGenesis now NewBlockchain.

Definition main_start (now : string) (file : file_content) : Blockchain :=
  snd (LoadFromFile file (NewNode_chain now)).

Definition main_start_regenesis (now1 now2 : string) (file : file_content) : Blockchain :=
  match LoadFromFile file (NewNode_chain now1) with
  | (Some _, bc) => CreateGenesis now2 bc
  | (None, bc) => bc
  end.

(** A trace of calls on the chain, for the invariants. *)
Inductive chain_op :=
  | OpAddBlock (b : Block)
  | OpReplaceChain (c : list Block)
  | OpLoadFromFile (file : file_content).

Definition step_op (bc : Blockchain) (o : chain_op) : Blockchain :=
  match o with
  | OpAddBlock b => snd (AddBlock b bc)
  | OpReplaceChain c => snd (ReplaceChain c bc)
  | OpLoadFromFile file => snd (LoadFromFile file bc)
  end.

Definition run_ops (ops : list chain_op) (bc : Blockchain) : Blockchain :=
  fold_left step_op ops bc.

(** The nonce [mine] tries in its [j]-th turn, starting from block [b]. *)
Definition nth_nonce (b : Block) (j : nat) : Z :=
  Nat.iter j (fun n => add_int n 1) (Nonce b).

(** The package-level PBFT variables, with the vote maps above. *)
Record Globals := mkGlobals {
  prePrepares : gmap Z PrePrepare;
  pbftSeq : Z;
  pbftView : Z;
  tallies : PBFT
}.

Definition globals_init : Globals := mkGlobals ∅ 1 0 pbft_init.

(** [proposeBlockToValidators] *)
Definition proposeBlockToValidators (sign : string -> string) (b : Block)
    (n : Node) (g : Globals) : Globals * list action :=
  let seq := pbftSeq g in
  let view := pbftView g in
  let pre := mkPrePrepare view seq (Some b) (":" +:+ Port n)
               (sign (vote_text (Hash b) seq view)) in
  (mkGlobals (<[seq := pre]> (prePrepares g)) (add_int seq 1) view (tallies g),
   map (fun addr => PostPrePrepare addr pre) (getValidatorList n)).

(** [HandlePBFTPrePrepare] *)
Definition HandlePBFTPrePrepare (check : list Z -> list Z -> list Z -> bool)
    (sign : string -> string) (body : option PrePrepare) (n : Node) (g : Globals)
    : outcome (Globals * list action) :=
  match body with
  | None => Ret (g, [Do (HttpError "invalid" 400)])
  | Some pp =>
      match pp_Block pp with
      | None => Ret (g, [Do (HttpError "bad block sig" 400)])
      | Some blk =>
          match VerifyBlockSignature check blk with
          | Panic => Panic
          | Ret false => Ret (g, [Do (HttpError "bad block sig" 400)])
          | Ret true =>
              let t := tallies g in
              let prepares' :=
                match prepares t !! pp_Seq pp with
                | None => <[pp_Seq pp := ∅]> (prepares t)
                | Some _ => prepares t
                end in
              let g' := mkGlobals (<[pp_Seq pp := pp]> (prePrepares g)) (pbftSeq g)
                          (pbftView g) (mkPBFT (votesMap t) prepares' (commits t)) in
              let prep := mkPrepare (pp_View pp) (pp_Seq pp) (Hash blk) (":" +:+ Port n)
                            (sign (vote_text (Hash blk) (pp_Seq pp) (pp_View pp))) in
              Ret (g', map (fun addr => PostPrepare addr prep) (getValidatorList n)
                       ++ [Do (HttpWrite ok_body)])
          end
      end
  end.

(** [isLeaderFor]: Go's [%] truncates toward zero, and indexing with a
    negative remainder panics. *)
Definition is_me (n : Node) (leader : string) : bool :=
  let my := ":" +:+ Port n in
  String.eqb leader my
  || String.eqb leader ("127.0.0.1" +:+ my)
  || String.eqb leader ("localhost" +:+ my).

Definition isLeaderFor (n : Node) (view seq : Z) : outcome bool :=
  let vals := getValidatorList n in
  if (length vals =? 0)%nat then Ret false
  else
    let idx := Z.rem seq (Z.of_nat (length vals)) in
    if idx <? 0 then Panic
    else
      match vals !! Z.to_nat idx with
      | None => Panic
      | Some leader => Ret (is_me n leader)
      end.

(** The invariant of the vote maps: a message is filed under its own
    sequence number and voter. *)
Definition well_keyed (st : PBFT) : Prop :=
  (forall seq voter pm,
      inner (prepares st) seq !! voter = Some pm -> p_Seq pm = seq /\ p_Voter pm = voter)
  /\ (forall seq voter cm,
      inner (commits st) seq !! voter = Some cm -> c_Seq cm = seq /\ c_Voter cm = voter)
  /\ (forall h voter v,
      inner (votesMap st) h !! voter = Some v -> BlockHash v = h /\ VoterPub v = voter).

(** The requests of the three vote handlers. *)
Inductive vote_request :=
  | ReqVote (body : option Vote)
  | ReqPrepare (body : option PrepareMsg)
  | ReqCommit (body : option CommitMsg).

Definition serve (check : list Z -> list Z -> list Z -> bool) (sign : string -> string)
    (n : Node) (st : PBFT) (r : vote_request) : PBFT :=
  match r with
  | ReqVote body =>
      match HandleVote check body n st with
      | Ret (st', _) => st'
      | Panic => st
      end
  | ReqPrepare body => fst (HandlePBFTPrepare sign body n st)
  | ReqCommit body => fst (HandlePBFTCommit body n st)
  end.

(** ** The ledger with its mutex *)

Module Mu.

(** The state of [bc.mu]. When a call below finds the mutex held, the
    holder is the caller itself, further up its own stack, or a goroutine
    that is blocked for good: an acquisition that has to wait never
    completes. *)
Inductive rwmutex :=
  | Unlocked
  | RLocked (more : nat)
  | Locked.

(** [Blockchain] with its field [mu]. *)
Record guarded := guard { store : Blockchain; mu : rwmutex }.

(** How a call ends: it returns, it panics, it blocks for ever on the
    mutex (in the state given), or the bound on the turns of [mine] was
    reached. *)
Inductive run (A : Type) : Type :=
  | Returns (a : A) (g : guarded)
  | Panics
  | Hangs (g : guarded)
  | Unfinished.
Arguments Returns {A} a g.
Arguments Panics {A}.
Arguments Hangs {A} g.
Arguments Unfinished {A}.

Definition M (A : Type) : Type := guarded -> run A.

Definition ret {A} (a : A) : M A := fun g => Returns a g.

Definition bind {A B} (c : M A) (k : A -> M B) : M B :=
  fun g =>
    match c g with
    | Returns a g' => k a g'
    | Panics => Panics
    | Hangs g' => Hangs g'
    | Unfinished => Unfinished
    end.

Notation "x <- c ;; k" := (bind c (fun x => k))
  (at level 100, c at next level, right associativity).
Notation "c ;;; k" := (bind c (fun _ => k))
  (at level 100, right associativity).

(** [sync.RWMutex]: [Lock], [Unlock], [RLock], [RUnlock]. Releasing a
    mutex that is not held is a fatal error. *)
Definition Lock : M unit :=
  fun g =>
    match mu g with
    | Unlocked => Returns tt (guard (store g) Locked)
    | _ => Hangs g
    end.

Definition Unlock : M unit :=
  fun g =>
    match mu g with
    | Locked => Returns tt (guard (store g) Unlocked)
    | _ => Panics
    end.

Definition RLock : M unit :=
  fun g =>
    match mu g with
    | Unlocked => Returns tt (guard (store g) (RLocked 0))
    | RLocked k => Returns tt (guard (store g) (RLocked (S k)))
    | Locked => Hangs g
    end.

Definition RUnlock : M unit :=
  fun g =>
    match mu g with
    | RLocked 0 => Returns tt (guard (store g) Unlocked)
    | RLocked (S k) => Returns tt (guard (store g) (RLocked k))
    | _ => Panics
    end.

Definition read_chain : M (list Block) := fun g => Returns (chain (store g)) g.

Definition write_chain (c : list Block) : M unit :=
  fun g => Returns tt (guard (mkChain c) (mu g)).

(** [Latest] *)
Definition Latest : M (option Block) :=
  RLock ;;;
  c <- read_chain ;;
  RUnlock ;;;
  ret (last c).

(** [AddBlock] *)
Definition AddBlock (b : Block) : M bool :=
  Lock ;;;
  latest <- Latest ;;
  r <- (match latest with
        | Some latest =>
            if negb (Index b =? add_int (Index latest) 1) then ret false
            else if negb (String.eqb (PrevHash b) (Hash latest)) then ret false
            else if negb (String.eqb (calculateHash b) (Hash b)) then ret false
            else c <- read_chain ;; write_chain (c ++ [b]) ;;; ret true
        | None => c <- read_chain ;; write_chain (c ++ [b]) ;;; ret true
        end) ;;
  Unlock ;;;
  ret r.

(** [ReplaceChain] *)
Definition ReplaceChain (newChain : list Block) : M bool :=
  Lock ;;;
  c <- read_chain ;;
  r <- (if (length newChain <=? length c)%nat then ret false
        else
          match validate newChain with
          | Some _ => ret false
          | None => write_chain newChain ;;; ret true
          end) ;;
  Unlock ;;;
  ret r.

(** [LoadFromFile] *)
Definition LoadFromFile (file : file_content) : M (option load_error) :=
  Lock ;;;
  r <- (match file with
        | ReadFailed => ret (Some ErrRead)
        | UnmarshalFailed => ret (Some ErrUnmarshal)
        | Decoded arr =>
            if (length arr =? 0)%nat then ret (Some ErrEmptyChain)
            else
              match validate arr with
              | Some i => ret (Some (ErrInvalidChainAt i))
              | None => write_chain arr ;;; ret None
              end
        end) ;;
  Unlock ;;;
  ret r.

(** [SaveToFile], as the call it makes on the file system. *)
Definition SaveToFile (fn : string) : M action :=
  RLock ;;;
  c <- read_chain ;;
  RUnlock ;;;
  ret (SaveChain fn c).

(** [mine] and [GenerateBlock]; neither takes the mutex itself. *)
Definition mine (fuel : nat) (b : Block) : M Block :=
  fun g =>
    match mine fuel b with
    | Some r => Returns r g
    | None => Unfinished
    end.

Definition GenerateBlock (fuel : nat) (now data : string) : M Block :=
  latest <- Latest ;;
  let '(idx, prev) :=
    match latest with
    | None => (1, "")
    | Some latest => (add_int (Index latest) 1, Hash latest)
    end in
  mine fuel (mkBlock "" "" idx now data prev "" 0).

(** Where a handler calls [VerifyBlockSignature]. *)
Definition verify (check : list Z -> list Z -> list Z -> bool) (b : Block) : M bool :=
  fun g =>
    match VerifyBlockSignature check b with
    | Ret ok => Returns ok g
    | Panic => Panics
    end.

(** [handleConn], case "block" *)
Definition handleBlock (check : list Z -> list Z -> list Z -> bool) (b : Block)
    : M (list effect) :=
  ok <- verify check b ;;
  if ok then
    added <- AddBlock b ;;
    if added then ret [PostBlockToAI b; BroadcastBlock b] else ret [SendRequestChain]
  else ret [].

(** One turn of the loop of [handleBlockMessages] *)
Definition handleBlockMessage (check : list Z -> list Z -> list Z -> bool)
    (from_self : bool) (body : option Block) : M (list effect) :=
  if from_self then ret []
  else
    match body with
    | None => ret []
    | Some b =>
        ok <- verify check b ;;
        if ok then
          added <- AddBlock b ;;
          if added then ret [PostBlockToAI b] else ret []
        else ret []
    end.

(** [handleConn], case "tx" *)
Definition handleTx (sign : list Z -> list Z -> list Z) (fuel : nat) (now : string)
    (bridge : option Block) (keyfile : option string) (data : string)
    : M (list effect) :=
  newB <- (match bridge with
           | Some bb => ret bb
           | None => GenerateBlock fuel now data
           end) ;;
  let newB' := match keyfile with
               | Some k => snd (SignBlock sign newB k)
               | None => newB
               end in
  added <- AddBlock newB' ;;
  if added then ret [PostBlockToAI newB'; BroadcastBlock newB'] else ret [].

(** [HandlePostTx]; [body] is [None] when the request does not decode. *)
Definition HandlePostTx (fuel : nat) (now : string) (body : option string)
    : M (list action) :=
  match body with
  | None => ret [Do (HttpError "invalid body" 400)]
  | Some data =>
      newB <- GenerateBlock fuel now data ;;
      added <- AddBlock newB ;;
      if added then
        saved <- SaveToFile "chain_store.json" ;;
        ret [saved; Do (BroadcastBlock newB); Do (PostBlockToAI newB);
             WriteHeader 201; WriteBlock newB]
      else ret [Do (HttpError "failed to add block" 500)]
  end.

(** One turn of the loop of [handleTxMessages] (gossip). *)
Definition handleTxMessage (fuel : nat) (now : string) (from_self : bool)
    (body : option string) : M (list action) :=
  if from_self then ret []
  else
    match body with
    | None => ret []
    | Some data =>
        newBlock <- GenerateBlock fuel now data ;;
        added <- AddBlock newBlock ;;
        if added then ret [PublishBlock newBlock] else ret []
    end.

End Mu.

(** * Proofs *)

(** ** Test vectors *)

Example sha256_abc :
  sha256_hex "abc" = "ba7816bf8f01cfea414140de5dae2223b00361a396177a9cb410ff61f20015ad".
Proof. vm_compute. reflexivity. Qed.

Example sha256_empty :
  sha256_hex "" = "e3b0c44298fc1c149afbf4c8996fb92427ae41e4649b934ca495991b7852b855".
Proof. vm_compute. reflexivity. Qed.

Example sha256_two_blocks :
  sha256_hex "abcdbcdecdefdefgefghfghighijhijkijkljklmklmnlmnomnopnopq"
  = "248d6a61d20638b8e5c026930c3e6039a33ce45964ff2167f6ecedd419db06c1".
Proof. vm_compute. reflexivity. Qed.

Example sprint_d_neg : sprint_d (-42) = "-42".
Proof. reflexivity. Qed.

Example sprint_d_zero : sprint_d 0 = "0".
Proof. reflexivity. Qed.

(** ** Digests are 64 hexadecimal digits *)

Lemma EncodeToString_length bs :
  String.length (Hex.EncodeToString bs) = (2 * length bs)%nat.
Proof.
  induction bs as [|b bs IH]; [reflexivity|].
  cbn [Hex.EncodeToString String.length length]. rewrite IH. lia.
Qed.

Lemma Sum256_length msg : length (SHA256.Sum256 msg) = 32%nat.
Proof.
  unfold SHA256.Sum256, SHA256.digest_bytes.
  rewrite !length_app. reflexivity.
Qed.

(** The slice [h[:difficulty]] of [mine] is always in range. *)
Lemma calculateHash_length b : String.length (calculateHash b) = 64%nat.
Proof.
  unfold calculateHash, sha256_hex.
  rewrite EncodeToString_length, Sum256_length. reflexivity.
Qed.

(** ** The ledger *)

Example genesis_chain_eq : genesis_chain = mkChain [genesis_block].
Proof. vm_compute. reflexivity. Qed.

Example chain5_hashes :
  map calculateHash chain5 = map Hash chain5.
Proof. vm_compute. reflexivity. Qed.

Example block1_mined :
  mine 1 (set_Nonce 165 (set_Hash "" block1)) = Some block1.
Proof. vm_compute. reflexivity. Qed.

Lemma add_int_small x y :
  - 2 ^ 63 <= x + y < 2 ^ 63 -> add_int x y = x + y.
Proof.
  intros Hr. unfold add_int, wrap_int.
  rewrite Z.mod_small by lia. lia.
Qed.

Lemma add_int_1_neq x : add_int x 1 <> x.
Proof.
  unfold add_int, wrap_int. intros E.
  assert (H64 : 0 < 2 ^ 64) by lia.
  pose proof (Z.mod_pos_bound (x + 1 + 2 ^ 63) (2 ^ 64) H64) as Hb.
  pose proof (Z.div_mod (x + 1 + 2 ^ 63) (2 ^ 64) ltac:(lia)) as Hd.
  set (q := (x + 1 + 2 ^ 63) / 2 ^ 64) in *.
  set (r := (x + 1 + 2 ^ 63) mod 2 ^ 64) in *.
  assert (2 ^ 64 * q = 1) by lia.
  assert (q = 0 \/ q < 0 \/ 0 < q) as [-> | [Hq | Hq]] by lia; lia.
Qed.

Lemma Latest_snoc l b : Latest (mkChain (l ++ [b])) = Some b.
Proof. unfold Latest. simpl. apply last_snoc. Qed.

Lemma calculateHash_set_Hash h b : calculateHash (set_Hash h b) = calculateHash b.
Proof. reflexivity. Qed.

Lemma admissible_dec latest b :
  (Index b =? add_int (Index latest) 1)
  && String.eqb (PrevHash b) (Hash latest)
  && String.eqb (calculateHash b) (Hash b) = true
  <-> admissible latest b.
Proof.
  unfold admissible.
  rewrite !andb_true_iff, Z.eqb_eq, !String.eqb_eq. tauto.
Qed.

(** [AddBlock] on a chain with a latest block, as one conditional. *)
Lemma AddBlock_nonempty b bc latest :
  Latest bc = Some latest ->
  AddBlock b bc =
    if (Index b =? add_int (Index latest) 1)
       && String.eqb (PrevHash b) (Hash latest)
       && String.eqb (calculateHash b) (Hash b)
    then (true, mkChain (chain bc ++ [b]))
    else (false, bc).
Proof.
  intros HL. unfold AddBlock. rewrite HL.
  destruct (Index b =? _); cbn [negb andb]; [|reflexivity].
  destruct (String.eqb (PrevHash b) _); cbn [negb andb]; [|reflexivity].
  destruct (String.eqb (calculateHash b) _); reflexivity.
Qed.

Lemma AddBlock_true_snoc b bc bc' :
  AddBlock b bc = (true, bc') -> bc' = mkChain (chain bc ++ [b]).
Proof.
  unfold AddBlock.
  destruct (Latest bc) as [latest|]; [|congruence].
  repeat match goal with
         | |- context [if ?c then _ else _] => destruct c
         end; congruence.
Qed.

Lemma AddBlock_false_same b bc bc' :
  AddBlock b bc = (false, bc') -> bc' = bc.
Proof.
  unfold AddBlock.
  destruct (Latest bc) as [latest|]; [|congruence].
  repeat match goal with
         | |- context [if ?c then _ else _] => destruct c
         end; congruence.
Qed.

(** The critical section of [AddBlock], were it entered with the latest
    block in hand: on a non-empty chain it yields true exactly when [b]
    has the latest index plus one (Go's [int] addition), links to the
    latest hash and carries the digest recomputed over its index,
    timestamp, data, previous hash and nonce; it then appends [b] as the
    last element, and otherwise yields false and leaves the chain as it
    was. *)
Theorem AddBlock_checks_latest (bc : Blockchain) (b latest : Block) :
  Latest bc = Some latest ->
  (fst (AddBlock b bc) = true <-> admissible latest b)
  /\ (admissible latest b ->
      AddBlock b bc = (true, mkChain (chain bc ++ [b]))
      /\ Latest (snd (AddBlock b bc)) = Some b)
  /\ (~ admissible latest b -> AddBlock b bc = (false, bc)).
Proof.
  intros HL. rewrite (AddBlock_nonempty b bc latest HL).
  pose proof (admissible_dec latest b) as Hd.
  destruct (_ && _ && _); cbn [fst snd].
  - split; [tauto|]. split; [intros _; split; [reflexivity|apply Latest_snoc]|].
    intros Hn. exfalso. apply Hn, Hd. reflexivity.
  - split; [split; [discriminate|]|].
    + intros Ha. apply Hd in Ha. discriminate.
    + split; [|reflexivity]. intros Ha. apply Hd in Ha. discriminate.
Qed.

Lemma AddBlock_checks_latest_witness :
  (fst (AddBlock block1 genesis_chain) = true <-> admissible genesis_block block1)
  /\ (admissible genesis_block block1 ->
      AddBlock block1 genesis_chain = (true, mkChain (chain genesis_chain ++ [block1]))
      /\ Latest (snd (AddBlock block1 genesis_chain)) = Some block1)
  /\ (~ admissible genesis_block block1 ->
      AddBlock block1 genesis_chain = (false, genesis_chain)).
Proof.
  apply (AddBlock_checks_latest genesis_chain block1 genesis_block).
  vm_compute. reflexivity.
Defined.

Example junk_block_fails_every_check :
  Index junk_block <> add_int (Index genesis_block) 1
  /\ PrevHash junk_block <> Hash genesis_block
  /\ calculateHash junk_block <> Hash junk_block
  /\ Signature junk_block = "".
Proof.
  split; [vm_compute; discriminate|]. split; [vm_compute; discriminate|].
  split; [vm_compute; discriminate|reflexivity].
Qed.

(** *** The validation loop *)

Lemma bad_link_false prev curr :
  bad_link prev curr = false
  <-> PrevHash curr = Hash prev /\ calculateHash curr = Hash curr.
Proof.
  unfold bad_link.
  rewrite orb_false_iff, !negb_false_iff, !String.eqb_eq. tauto.
Qed.

Lemma linked_head prev curr rest :
  linked (prev :: curr :: rest) 0 <-> bad_link prev curr = false.
Proof.
  rewrite bad_link_false. unfold linked. split.
  - intros H. apply H; reflexivity.
  - intros H p c [= <-] [= <-]. exact H.
Qed.

Lemma linked_tail prev rest j :
  linked (prev :: rest) (S j) <-> linked rest j.
Proof. unfold linked. reflexivity. Qed.

(** The loop stops at the first position whose link is broken. *)
Lemma first_bad_spec rest : forall k prev,
  match first_bad k prev rest with
  | None => forall j, linked (prev :: rest) j
  | Some p =>
      exists i, p = (k + i)%nat /\ (i < length rest)%nat
                /\ ~ linked (prev :: rest) i
                /\ forall j, (j < i)%nat -> linked (prev :: rest) j
  end.
Proof.
  induction rest as [|curr rest IH]; intros k prev; cbn [first_bad].
  - intros j p c _ Hc. destruct j; discriminate Hc.
  - destruct (bad_link prev curr) eqn:Hb.
    + exists 0%nat. split; [lia|]. split; [cbn; lia|]. split; [|lia].
      rewrite linked_head. congruence.
    + specialize (IH (S k) curr). destruct (first_bad (S k) curr rest) as [p|].
      * destruct IH as (i & -> & Hlen & Hbad & Hmin).
        exists (S i). split; [lia|]. split; [cbn; lia|]. split.
        -- rewrite linked_tail. exact Hbad.
        -- intros [|j] Hj; [apply linked_head, Hb|].
           apply linked_tail, Hmin. lia.
      * intros [|j]; [apply linked_head, Hb | apply linked_tail, IH].
Qed.

Lemma validate_None arr :
  validate arr = None <-> forall j, linked arr j.
Proof.
  destruct arr as [|b0 rest]; cbn [validate].
  - split; [|reflexivity]. intros _ j p c Hp. discriminate Hp.
  - pose proof (first_bad_spec rest 1 b0) as H.
    destruct (first_bad 1 b0 rest) as [p|]; [|tauto].
    destruct H as (i & _ & _ & Hbad & _).
    split; [discriminate|]. intros Hall. destruct (Hbad (Hall i)).
Qed.

Lemma validate_Some arr i :
  validate arr = Some (S i)
  <-> (S i < length arr)%nat /\ ~ linked arr i
      /\ forall j, (j < i)%nat -> linked arr j.
Proof.
  destruct arr as [|b0 rest]; cbn [validate].
  - split; [discriminate|]. cbn. lia.
  - pose proof (first_bad_spec rest 1 b0) as H.
    destruct (first_bad 1 b0 rest) as [p|].
    + destruct H as (i' & -> & Hlen & Hbad & Hmin). split.
      * intros [= <-]. cbn [length]. split; [lia|]. split; [exact Hbad | exact Hmin].
      * intros (_ & Hbad' & Hmin'). f_equal.
        destruct (lt_eq_lt_dec i i') as [[Hlt | ->] | Hgt]; [|reflexivity|].
        -- destruct (Hbad' (Hmin i Hlt)).
        -- destruct (Hbad (Hmin' i' Hgt)).
    + split; [discriminate|]. intros (_ & Hbad & _). destruct (Hbad (H i)).
Qed.

Lemma validate_not_first arr : validate arr <> Some 0%nat.
Proof.
  destruct arr as [|b0 rest]; cbn [validate]; [discriminate|].
  pose proof (first_bad_spec rest 1 b0) as H.
  destruct (first_bad 1 b0 rest) as [p|]; [|discriminate].
  destruct H as (i & -> & _). discriminate.
Qed.

(** [ReplaceChain] as one conditional on the two conditions it tests. *)
Lemma ReplaceChain_spec newChain bc :
  ((length (chain bc) < length newChain)%nat /\ (forall j, linked newChain j)
   -> ReplaceChain newChain bc = (true, mkChain newChain))
  /\ (~ ((length (chain bc) < length newChain)%nat /\ (forall j, linked newChain j))
      -> ReplaceChain newChain bc = (false, bc)).
Proof.
  unfold ReplaceChain.
  destruct (Nat.leb_spec (length newChain) (length (chain bc))) as [Hle|Hgt].
  - split; [lia|reflexivity].
  - pose proof (validate_None newChain) as Hv.
    destruct (validate newChain) as [i|].
    + split; [|reflexivity]. intros [_ Hall]. apply Hv in Hall. discriminate.
    + split; [reflexivity|]. intros Hn. destruct Hn. split; [lia|apply Hv; reflexivity].
Qed.

(** [LoadFromFile] on a decoded, non-empty array. *)
Lemma LoadFromFile_spec arr bc :
  arr <> [] ->
  ((forall j, linked arr j) -> LoadFromFile (Decoded arr) bc = (None, mkChain arr))
  /\ (~ (forall j, linked arr j) ->
      exists i, LoadFromFile (Decoded arr) bc = (Some (ErrInvalidChainAt i), bc)).
Proof.
  intros Hne. unfold LoadFromFile.
  destruct arr as [|b0 rest]; [congruence|]. cbn [length Nat.eqb].
  pose proof (validate_None (b0 :: rest)) as Hv.
  destruct (validate (b0 :: rest)) as [i|].
  - split; [|intros _; exists i; reflexivity].
    intros Hall. apply Hv in Hall. discriminate.
  - split; [reflexivity|]. intros Hn. destruct Hn. apply Hv. reflexivity.
Qed.

(** The three mutators that validate keep a hash-linked chain
    hash-linked. *)
Lemma AddBlock_keeps_links b bc :
  validate (chain bc) = None -> validate (chain (snd (AddBlock b bc))) = None.
Proof.
  intros Hv. destruct (AddBlock b bc) as [[|] bc'] eqn:Ha; cbn [snd];
    [|rewrite (AddBlock_false_same _ _ _ Ha); exact Hv].
  rewrite (AddBlock_true_snoc _ _ _ Ha). cbn [chain].
  apply validate_None. intros j p c Hp Hc.
  destruct (decide (S j < length (chain bc))%nat) as [Hlt|Hge].
  - rewrite lookup_app_l in Hp by lia. rewrite lookup_app_l in Hc by lia.
    exact (proj1 (validate_None _) Hv j p c Hp Hc).
  - destruct (decide (S j = length (chain bc))) as [Heq|Hne].
    + destruct (Latest bc) as [latest|] eqn:HL.
      * rewrite (AddBlock_nonempty b bc latest HL) in Ha.
        destruct (_ && _ && _) eqn:Hadm; [|discriminate].
        apply admissible_dec in Hadm. destruct Hadm as (_ & Hprev & Hh).
        rewrite lookup_app_l in Hp by lia.
        rewrite lookup_app_r in Hc by lia.
        replace (S j - length (chain bc))%nat with 0%nat in Hc by lia.
        injection Hc as <-.
        unfold Latest in HL. rewrite last_lookup, <- Heq in HL. cbn [pred] in HL.
        rewrite Hp in HL. injection HL as ->. split; assumption.
      * unfold Latest in HL. apply last_None in HL. rewrite HL in Heq. discriminate.
    + rewrite lookup_ge_None_2 in Hc; [discriminate|].
      rewrite length_app. cbn [length]. lia.
Qed.

Lemma ReplaceChain_keeps_links newChain bc :
  validate (chain bc) = None ->
  validate (chain (snd (ReplaceChain newChain bc))) = None.
Proof.
  intros Hv. unfold ReplaceChain.
  destruct (_ <=? _)%nat; [exact Hv|].
  destruct (validate newChain) eqn:Hn; [exact Hv|exact Hn].
Qed.

Lemma LoadFromFile_keeps_links file bc :
  validate (chain bc) = None ->
  validate (chain (snd (LoadFromFile file bc))) = None.
Proof.
  intros Hv. unfold LoadFromFile.
  destruct file as [| |arr]; [exact Hv|exact Hv|].
  destruct (_ =? _)%nat; [exact Hv|].
  destruct (validate arr) eqn:Hn; [exact Hv|exact Hn].
Qed.

(** C2. [ReplaceChain] does not compare indices. The candidate made of
    the genesis block and [skipped_block], whose index is 7 and not
    0 + 1, is longer than the genesis-only chain, links by hash and
    carries its own digest: [ReplaceChain] takes the lock, installs it,
    releases the lock and returns true. *)
Theorem ReplaceChain_skips_index_check :
  ReplaceChain [genesis_block; skipped_block] genesis_chain
    = (true, mkChain [genesis_block; skipped_block])
  /\ Mu.ReplaceChain [genesis_block; skipped_block] (Mu.guard genesis_chain Mu.Unlocked)
     = Mu.Returns true (Mu.guard (mkChain [genesis_block; skipped_block]) Mu.Unlocked)
  /\ Index skipped_block = 7
  /\ Index skipped_block <> add_int (Index genesis_block) 1.
Proof.
  split; [vm_compute; reflexivity|].
  split; [vm_compute; reflexivity|].
  split; [reflexivity|vm_compute; discriminate].
Qed.

(** C6. A persisted chain whose blocks before position [i > 0] pass
    validation (as all do in a chain that was valid when it was saved),
    and in which the payload of the block at position [i] has been
    altered so that its recomputed digest no longer equals the stored
    one: [LoadFromFile] returns the error "invalid chain at index i" and
    does not touch the chain in memory. *)
Theorem LoadFromFile_altered_payload
    (orig : list Block) (i : nat) (bi : Block) (d' : string) (bc : Blockchain) :
  validate (take i orig) = None ->
  (0 < i)%nat ->
  orig !! i = Some bi ->
  calculateHash (set_Data d' bi) <> Hash bi ->
  LoadFromFile (Decoded (<[i := set_Data d' bi]> orig)) bc
    = (Some (ErrInvalidChainAt i), bc)
  /\ error_text (ErrInvalidChainAt i)
     = "invalid chain at index " +:+ sprint_d (Z.of_nat i).
Proof.
  intros Hvalid Hpos Hbi Hneq. split; [|reflexivity].
  destruct i as [|i]; [lia|].
  pose proof (lookup_lt_Some _ _ _ Hbi) as Hlen.
  assert (Hv : validate (<[S i := set_Data d' bi]> orig) = Some (S i)).
  { apply validate_Some. rewrite length_insert. split; [exact Hlen|]. split.
    - destruct (lookup_lt_is_Some_2 orig i ltac:(lia)) as [prev Hprev].
      intros Hl.
      destruct (Hl prev (set_Data d' bi)) as [_ Hh].
      + rewrite list_lookup_insert_ne by lia. exact Hprev.
      + apply list_lookup_insert_eq. exact Hlen.
      + apply Hneq. exact Hh.
    - intros j Hj p c Hp Hc.
      rewrite list_lookup_insert_ne in Hp by lia.
      rewrite list_lookup_insert_ne in Hc by lia.
      apply (proj1 (validate_None (take (S i) orig)) Hvalid j p c).
      + rewrite lookup_take_lt by lia. exact Hp.
      + rewrite lookup_take_lt by lia. exact Hc. }
  unfold LoadFromFile. rewrite Hv.
  destruct (Nat.eqb_spec (length (<[S i := set_Data d' bi]> orig)) 0) as [E|_];
    [|reflexivity].
  rewrite length_insert in E. lia.
Qed.

(** Scenario C: five persisted blocks, the payload of block 3 altered. *)
Lemma LoadFromFile_altered_payload_witness :
  LoadFromFile (Decoded (<[3%nat := set_Data "pay bob 9" block3]> chain5)) genesis_chain
    = (Some (ErrInvalidChainAt 3), genesis_chain)
  /\ error_text (ErrInvalidChainAt 3)
     = "invalid chain at index " +:+ sprint_d (Z.of_nat 3).
Proof.
  apply (LoadFromFile_altered_payload chain5 3 block3 "pay bob 9" genesis_chain).
  - vm_compute. reflexivity.
  - lia.
  - reflexivity.
  - vm_compute. discriminate.
Defined.

(** The whole of a valid chain is in particular valid up to [i]. *)
Lemma validate_take arr i : validate arr = None -> validate (take i arr) = None.
Proof.
  rewrite !validate_None. intros Hall j p c Hp Hc.
  destruct (decide (S j < i)%nat) as [Hlt|Hge].
  - rewrite lookup_take_lt in Hp by lia. rewrite lookup_take_lt in Hc by lia.
    exact (Hall j p c Hp Hc).
  - rewrite lookup_take_ge in Hc by lia. discriminate.
Qed.

Example scenario_C_text : error_text (ErrInvalidChainAt 3) = "invalid chain at index 3".
Proof. reflexivity. Qed.

(** *** Proof of work *)

(** What [mine] returns is its argument with a new nonce and the digest
    of the result stored in it, and that digest is sealed. *)
Lemma mine_sound fuel : forall b0 b,
  mine fuel b0 = Some b ->
  b = set_Hash (calculateHash b) (set_Nonce (Nonce b) b0)
  /\ sealed (Hash b) = true.
Proof.
  induction fuel as [|k IH]; intros b0 b; cbn [mine]; [discriminate|].
  destruct (sealed (calculateHash (set_Nonce (add_int (Nonce b0) 1) b0))) eqn:Hs.
  - intros [= <-]. split; [reflexivity|exact Hs].
  - intros Hm. destruct (IH _ _ Hm) as [Hb Hsealed].
    split; [|exact Hsealed]. rewrite Hb at 1. reflexivity.
Qed.

(** C7, as the code has it. A block returned by [GenerateBlock] carries
    the digest recomputed over its fields, that digest starts with
    [difficulty] zero digits, the block holds the given payload, and it
    has the index, the previous hash and the digest that the checks
    against the latest block ask for. The prefix is established by
    mining only: [ReplaceChain] and [LoadFromFile] do not test it. *)
Theorem GenerateBlock_sealed
    (fuel : nat) (now data : string) (bc : Blockchain) (b : Block) :
  GenerateBlock fuel now data bc = Some b ->
  calculateHash b = Hash b
  /\ sealed (Hash b) = true
  /\ Data b = data
  /\ (forall latest, Latest bc = Some latest -> admissible latest b)
  /\ (Latest bc = None -> Index b = 1 /\ PrevHash b = "").
Proof.
  unfold GenerateBlock. intros Hg.
  destruct (Latest bc) as [latest|] eqn:HL;
    destruct (mine_sound _ _ _ Hg) as [Hb Hs];
    assert (Hh : calculateHash b = Hash b) by (rewrite Hb at 2; reflexivity).
  - split; [exact Hh|]. split; [exact Hs|]. split; [rewrite Hb; reflexivity|].
    split; [|discriminate]. intros l [= <-].
    split; [rewrite Hb; reflexivity|]. split; [rewrite Hb; reflexivity|exact Hh].
  - split; [exact Hh|]. split; [exact Hs|]. split; [rewrite Hb; reflexivity|].
    split; [discriminate|]. intros _. split; rewrite Hb; reflexivity.
Qed.

(** Scenario B: the payload "hello" on the genesis-only chain. *)
Lemma GenerateBlock_sealed_witness :
  calculateHash block1 = Hash block1
  /\ sealed (Hash block1) = true
  /\ Data block1 = "hello"
  /\ (forall latest, Latest genesis_chain = Some latest -> admissible latest block1)
  /\ (Latest genesis_chain = None -> Index block1 = 1 /\ PrevHash block1 = "").
Proof.
  apply (GenerateBlock_sealed 166 t0 "hello" genesis_chain block1).
  vm_compute. reflexivity.
Defined.

(** C7, as stated, fails: the genesis-only chain satisfies the invariant,
    [unsealed_block] has index 1 and a digest starting with 66, and
    [ReplaceChain] installs the chain that holds it; so does
    [LoadFromFile]. *)
Lemma unsealed_block_admitted :
  pow_invariant genesis_chain
  /\ ReplaceChain [genesis_block; unsealed_block] genesis_chain
     = (true, mkChain [genesis_block; unsealed_block])
  /\ Mu.ReplaceChain [genesis_block; unsealed_block] (Mu.guard genesis_chain Mu.Unlocked)
     = Mu.Returns true (Mu.guard (mkChain [genesis_block; unsealed_block]) Mu.Unlocked)
  /\ LoadFromFile (Decoded [genesis_block; unsealed_block]) genesis_chain
     = (None, mkChain [genesis_block; unsealed_block])
  /\ ~ pow_invariant (mkChain [genesis_block; unsealed_block]).
Proof.
  split; [|split; [|split; [|split]]].
  - intros b Hin Hpos. rewrite genesis_chain_eq in Hin.
    destruct Hin as [<- | []]. vm_compute in Hpos. discriminate.
  - vm_compute. reflexivity.
  - vm_compute. reflexivity.
  - vm_compute. reflexivity.
  - intros Hinv. specialize (Hinv unsealed_block).
    assert (Hs : sealed (Hash unsealed_block) = true).
    { apply Hinv; [right; left; reflexivity|reflexivity]. }
    vm_compute in Hs. discriminate.
Qed.

Section NodeProperties.

Variable ed25519_check : list Z -> list Z -> list Z -> bool.
Variable signMessage : string -> string.

Lemma VerifyBlockSignature_true b :
  VerifyBlockSignature ed25519_check b = Ret true ->
  signature_verifies ed25519_check b.
Proof.
  unfold VerifyBlockSignature, signature_verifies, ed25519_Verify.
  destruct (String.eqb_spec (Signature b) "") as [|Hs]; [discriminate|].
  destruct (String.eqb_spec (PubKey b) "") as [|Hp]; [discriminate|].
  cbn [orb].
  destruct (Hex.DecodeString (PubKey b)) as [pub|]; [|discriminate].
  destruct (Hex.DecodeString (Signature b)) as [sig|]; [|discriminate].
  destruct (Nat.eqb_spec (length pub) 32) as [Hlp|]; [|discriminate].
  destruct (Nat.eqb_spec (length sig) 64) as [Hls|]; [|discriminate].
  cbn [negb]. intros [= Hc].
  split; [exact Hs|]. split; [exact Hp|]. exists pub, sig. auto.
Qed.

Lemma VerifyBlockSignature_empty b :
  Signature b = "" \/ PubKey b = "" ->
  VerifyBlockSignature ed25519_check b = Ret false.
Proof.
  unfold VerifyBlockSignature. intros [-> | ->].
  - reflexivity.
  - rewrite orb_true_r. reflexivity.
Qed.

(** C8. A block received in a "block" message is appended only if
    [VerifyBlockSignature] accepted it: both fields are present, they
    decode, and the signature verifies under the public key over the
    digest recomputed from the block. A block whose signature or public
    key is empty leaves the chain as it was. *)
Theorem handleBlock_requires_signature (b : Block) (bc : Blockchain) :
  (forall bc' effs,
      handleBlock ed25519_check b bc = Ret (bc', effs) -> bc' <> bc ->
      signature_verifies ed25519_check b /\ bc' = mkChain (chain bc ++ [b]))
  /\ (Signature b = "" \/ PubKey b = "" ->
      handleBlock ed25519_check b bc = Ret (bc, [])).
Proof.
  unfold handleBlock. split.
  - intros bc' effs.
    destruct (VerifyBlockSignature ed25519_check b) as [[|]|] eqn:Hv;
      [|intros [= <- _] Hne; destruct (Hne eq_refl)|discriminate].
    destruct (AddBlock b bc) as [[|] bc1] eqn:Ha; intros [= <- _] Hne.
    + split; [apply VerifyBlockSignature_true, Hv|].
      apply (AddBlock_true_snoc _ _ _ Ha).
    + destruct Hne. apply (AddBlock_false_same _ _ _ Ha).
  - intros He. rewrite (VerifyBlockSignature_empty b He). reflexivity.
Qed.

(** The gossip subscriber applies the same test. *)
Lemma handleBlockMessage_requires_signature from_self body bc bc' effs :
  handleBlockMessage ed25519_check from_self body bc = Ret (bc', effs) ->
  bc' <> bc ->
  exists b, body = Some b /\ signature_verifies ed25519_check b
            /\ bc' = mkChain (chain bc ++ [b]).
Proof.
  unfold handleBlockMessage.
  destruct from_self; [intros [= <- _] Hne; destruct (Hne eq_refl)|].
  destruct body as [b|]; [|intros [= <- _] Hne; destruct (Hne eq_refl)].
  destruct (VerifyBlockSignature ed25519_check b) as [[|]|] eqn:Hv;
    [|intros [= <- _] Hne; destruct (Hne eq_refl)|discriminate].
  destruct (AddBlock b bc) as [[|] bc1] eqn:Ha; intros [= <- _] Hne.
  - exists b. split; [reflexivity|]. split; [apply VerifyBlockSignature_true, Hv|].
    apply (AddBlock_true_snoc _ _ _ Ha).
  - destruct Hne. apply (AddBlock_false_same _ _ _ Ha).
Qed.

End NodeProperties.

Lemma handleBlock_requires_signature_witness :
  (signature_verifies accept_all signed_block1
   /\ mkChain [genesis_block; signed_block1]
      = mkChain (chain genesis_chain ++ [signed_block1]))
  /\ handleBlock accept_all block1 genesis_chain = Ret (genesis_chain, []).
Proof.
  split.
  - apply (proj1 (handleBlock_requires_signature accept_all signed_block1 genesis_chain)
             (mkChain [genesis_block; signed_block1])
             [PostBlockToAI signed_block1; BroadcastBlock signed_block1]).
    + vm_compute. reflexivity.
    + vm_compute. discriminate.
  - apply (proj2 (handleBlock_requires_signature accept_all block1 genesis_chain)).
    left. reflexivity.
Defined.

(** ** Properties claimed of the PBFT handlers *)

Section PBFTProperties.

Variable ed25519_check : list Z -> list Z -> list Z -> bool.
Variable signMessage : string -> string.








End PBFTProperties.


(** C4. The vote sets are keyed by sequence number and voter only. On a
    roster of four (threshold 3), with votes for "aa" from "v1" and for
    "bb" from "v2" recorded at sequence 1 in view 0, a third vote in the
    same view for "cc" from "v3" makes [HandlePBFTPrepare] post a Commit
    for "cc" to every validator and makes [HandlePBFTCommit] notify the
    bridge, although a single recorded vote agrees with that hash. *)
Theorem votes_for_different_hashes_combine (sign : string -> string) :
  let quorum := needed (getValidatorList roster4) in
  let prep := HandlePBFTPrepare sign (Some (mkPrepare 0 1 "cc" "v3" "")) roster4
                two_votes_state in
  let comm := HandlePBFTCommit (Some (mkCommit 0 1 "cc" "v3" "")) roster4
                two_votes_state in
  quorum = 3%nat
  /\ snd prep
     = map (fun addr => PostCommit addr (mkCommit 0 1 "cc" ":8080" (sign "cc:1:0")))
           ["v1"; "v2"; "v3"; "v4"]
       ++ [HttpWrite ok_body]
  /\ agreeing_prepares 0 "cc" (inner (prepares (fst prep)) 1) = 1%nat
  /\ snd comm
     = [BridgeCommitBlock "cc"; LogCommitted "seq 1" 3 4; HttpWrite ok_body]
  /\ agreeing_commits 0 "cc" (inner (commits (fst comm)) 1) = 1%nat.
Proof.
  cbv zeta. split; [reflexivity|].
  split; [vm_compute; reflexivity|].
  split; [vm_compute; reflexivity|].
  split; vm_compute; reflexivity.
Qed.

(** The view of a vote is not compared either: a third vote for "aa" in
    view 5 completes the count begun in view 0. *)
Lemma votes_for_different_views_combine (sign : string -> string) :
  snd (HandlePBFTPrepare sign (Some (mkPrepare 5 1 "aa" "v3" "")) roster4
         two_votes_state)
  = map (fun addr => PostCommit addr (mkCommit 5 1 "aa" ":8080" (sign "aa:1:5")))
        ["v1"; "v2"; "v3"; "v4"]
    ++ [HttpWrite ok_body].
Proof. vm_compute. reflexivity. Qed.

(** Neither handler reads the signature of the vote it stores. *)
Lemma HandlePBFTPrepare_ignores_sig (sign : string -> string) pm sig n st :
  snd (HandlePBFTPrepare sign
         (Some (mkPrepare (p_View pm) (p_Seq pm) (p_Hash pm) (p_Voter pm) sig)) n st)
  = snd (HandlePBFTPrepare sign (Some pm) n st).
Proof.
  cbn [HandlePBFTPrepare snd p_View p_Seq p_Hash p_Voter].
  rewrite <- !size_dom, !dom_insert_L. reflexivity.
Qed.

Lemma HandlePBFTCommit_ignores_sig cm sig n st :
  snd (HandlePBFTCommit
         (Some (mkCommit (c_View cm) (c_Seq cm) (c_Hash cm) (c_Voter cm) sig)) n st)
  = snd (HandlePBFTCommit (Some cm) n st).
Proof.
  cbn [HandlePBFTCommit snd c_View c_Seq c_Hash c_Voter].
  rewrite <- !size_dom, !dom_insert_L. reflexivity.
Qed.

(** [HandleVote], in contrast, stores a vote only after its signature
    verified over the text "hash:round". *)
Lemma HandleVote_fail_closed check v n st st' effs :
  HandleVote check (Some v) n st = Ret (st', effs) ->
  st' <> st ->
  exists pubb sigb,
    Hex.DecodeString (VoterPub v) = Some pubb
    /\ Hex.DecodeString (v_Signature v) = Some sigb
    /\ ed25519_Verify check pubb
         (SHA256.bytes_of_string (BlockHash v +:+ ":" +:+ sprint_d (Round v))) sigb
       = Ret true.
Proof.
  unfold HandleVote.
  destruct (Hex.DecodeString (VoterPub v)) as [pubb|];
    [|intros [= <- _] Hne; destruct (Hne eq_refl)].
  destruct (Hex.DecodeString (v_Signature v)) as [sigb|];
    [|intros [= <- _] Hne; destruct (Hne eq_refl)].
  destruct (ed25519_Verify check pubb _ sigb) as [[|]|] eqn:Hv;
    [|intros [= <- _] Hne; destruct (Hne eq_refl)|discriminate].
  intros _ _. exists pubb, sigb. auto.
Qed.

(** C5. [HandlePBFTPrepare] and [HandlePBFTCommit] verify no signature.
    On a roster of one (threshold 1), a Prepare with an empty signature
    from a voter outside the roster is stored and makes the node post a
    Commit; a Commit with an empty signature is stored and makes the node
    notify the bridge. *)
Theorem unsigned_votes_are_counted (sign : string -> string) :
  let prep := HandlePBFTPrepare sign (Some unsigned_prepare) roster1 pbft_init in
  let comm := HandlePBFTCommit (Some unsigned_commit) roster1 pbft_init in
  p_Sig unsigned_prepare = "" /\ c_Sig unsigned_commit = ""
  /\ inner (prepares (fst prep)) 1 !! "mallory" = Some unsigned_prepare
  /\ snd prep
     = [PostCommit "v1" (mkCommit 0 1 "aa" ":8080" (sign "aa:1:0")); HttpWrite ok_body]
  /\ inner (commits (fst comm)) 1 !! "mallory" = Some unsigned_commit
  /\ snd comm
     = [BridgeCommitBlock "aa"; LogCommitted "seq 1" 1 1; HttpWrite ok_body].
Proof.
  cbv zeta. split; [reflexivity|]. split; [reflexivity|].
  split; [vm_compute; reflexivity|].
  split; [vm_compute; reflexivity|].
  split; vm_compute; reflexivity.
Qed.

(** * Further properties of the ledger *)

Lemma append_assoc3 (a b c : string) : (a +:+ b) +:+ c = a +:+ (b +:+ c).
Proof.
  induction a as [|x a IH]; [reflexivity|].
  change (String x ((a +:+ b) +:+ c) = String x (a +:+ (b +:+ c))).
  f_equal. exact IH.
Qed.

Lemma calculateHash_nonempty b : calculateHash b <> "".
Proof.
  intros E. pose proof (calculateHash_length b) as H. rewrite E in H. discriminate H.
Qed.

(** X1. [ReplaceChain] returns true exactly when the candidate is
    strictly longer than the chain and every adjacent pair of it links by
    previous hash and carries its own digest; indices are not compared
    and the first block is not examined. The chain afterwards is the
    candidate in that case and the old chain otherwise, and it is never
    shorter than before. *)
Theorem ReplaceChain_exact (c : list Block) (bc : Blockchain) :
  (fst (ReplaceChain c bc) = true
   <-> (length (chain bc) < length c)%nat /\ forall j, linked c j)
  /\ snd (ReplaceChain c bc) = (if fst (ReplaceChain c bc) then mkChain c else bc)
  /\ (length (chain bc) <= length (chain (snd (ReplaceChain c bc))))%nat.
Proof.
  unfold ReplaceChain.
  destruct (Nat.leb_spec (length c) (length (chain bc))) as [Hle|Hgt]; cbn [fst snd].
  - split; [|split; [reflexivity|lia]].
    split; [discriminate|]. intros [Hlt _]. lia.
  - pose proof (validate_None c) as Hv.
    destruct (validate c) as [i|]; cbn [fst snd chain].
    + split; [|split; [reflexivity|lia]].
      split; [discriminate|]. intros [_ Hall]. apply Hv in Hall. discriminate.
    + split; [|split; [reflexivity|lia]].
      split; [|reflexivity]. intros _. split; [exact Hgt|]. apply Hv. reflexivity.
Qed.

Lemma LoadFromFile_error_same file bc :
  fst (LoadFromFile file bc) <> None -> snd (LoadFromFile file bc) = bc.
Proof.
  unfold LoadFromFile. destruct file as [| |arr]; [reflexivity|reflexivity|].
  destruct (length arr =? 0)%nat; [reflexivity|].
  destruct (validate arr); [reflexivity|]. intros H. destruct (H eq_refl).
Qed.

(** X2. [LoadFromFile] returns nil exactly when the file decodes to a
    non-empty array whose adjacent pairs all link, and then the chain is
    that array; on every error the chain in memory is the one before the
    call, and an empty array is the error "empty chain". *)
Theorem LoadFromFile_exact (file : file_content) (bc : Blockchain) :
  (fst (LoadFromFile file bc) = None
   <-> exists arr, file = Decoded arr /\ arr <> [] /\ forall j, linked arr j)
  /\ (forall arr, file = Decoded arr -> fst (LoadFromFile file bc) = None ->
      snd (LoadFromFile file bc) = mkChain arr)
  /\ (fst (LoadFromFile file bc) <> None -> snd (LoadFromFile file bc) = bc)
  /\ (file = Decoded [] -> fst (LoadFromFile file bc) = Some ErrEmptyChain).
Proof.
  unfold LoadFromFile. destruct file as [| |arr]; cbn [fst snd].
  - split; [split; [discriminate|intros (a & E & _); discriminate E]|].
    split; [discriminate|]. split; [reflexivity|discriminate].
  - split; [split; [discriminate|intros (a & E & _); discriminate E]|].
    split; [discriminate|]. split; [reflexivity|discriminate].
  - destruct arr as [|b0 rest]; cbn [length Nat.eqb fst snd].
    + split; [split; [discriminate|intros (a & [= <-] & Hne & _); congruence]|].
      split; [discriminate|]. split; reflexivity.
    + pose proof (validate_None (b0 :: rest)) as Hv.
      destruct (validate (b0 :: rest)) as [i|]; cbn [fst snd].
      * split; [split; [discriminate|]|].
        -- intros (a & [= <-] & _ & Hall). apply Hv in Hall. discriminate.
        -- split; [discriminate|]. split; [reflexivity|discriminate].
      * split; [split; [|reflexivity]|].
        -- intros _. exists (b0 :: rest). split; [reflexivity|].
           split; [discriminate|]. apply Hv. reflexivity.
        -- split; [intros a [= <-] _; reflexivity|].
           split; [congruence|discriminate].
Qed.

Lemma step_op_keeps o bc :
  chain bc <> [] /\ validate (chain bc) = None ->
  chain (step_op bc o) <> [] /\ validate (chain (step_op bc o)) = None.
Proof.
  intros [Hne Hv]. destruct o as [b|c|file]; cbn [step_op].
  - split; [|apply AddBlock_keeps_links, Hv].
    destruct (AddBlock b bc) as [[|] bc'] eqn:Ha; cbn [snd].
    + rewrite (AddBlock_true_snoc _ _ _ Ha). cbn [chain].
      intros E. apply app_eq_nil in E. destruct E as [_ E]. discriminate E.
    + rewrite (AddBlock_false_same _ _ _ Ha). exact Hne.
  - split; [|apply ReplaceChain_keeps_links, Hv].
    unfold ReplaceChain.
    destruct (Nat.leb_spec (length c) (length (chain bc))) as [Hle|Hgt]; [exact Hne|].
    destruct (validate c); [exact Hne|]. cbn [snd chain].
    intros ->. cbn in Hgt. lia.
  - split; [|apply LoadFromFile_keeps_links, Hv].
    unfold LoadFromFile. destruct file as [| |arr]; [exact Hne|exact Hne|].
    destruct arr as [|b0 rest]; [exact Hne|]. cbn [length Nat.eqb].
    destruct (validate (b0 :: rest)); [exact Hne|discriminate].
Qed.

Lemma run_ops_keeps ops : forall bc,
  chain bc <> [] /\ validate (chain bc) = None ->
  chain (run_ops ops bc) <> [] /\ validate (chain (run_ops ops bc)) = None.
Proof.
  induction ops as [|o ops IH]; intros bc H; [exact H|].
  cbn [run_ops fold_left]. apply IH, step_op_keeps, H.
Qed.

(** X3. Starting from the genesis chain of [NewNode], whatever calls of
    [AddBlock], [ReplaceChain] and [LoadFromFile] follow, the chain stays
    non-empty and hash-linked; hence a file that decodes to the chain in
    memory is accepted by [LoadFromFile], which restores exactly that
    chain. *)
Theorem reachable_chain_reloads (now : string) (ops : list chain_op) (bc0 : Blockchain) :
  let bc := run_ops ops (NewNode_chain now) in
  chain bc <> []
  /\ validate (chain bc) = None
  /\ LoadFromFile (Decoded (chain bc)) bc0 = (None, bc).
Proof.
  intros bc.
  assert (H : chain bc <> [] /\ validate (chain bc) = None).
  { apply run_ops_keeps. split; [discriminate|reflexivity]. }
  destruct H as [Hne Hv]. split; [exact Hne|]. split; [exact Hv|].
  unfold LoadFromFile. rewrite Hv.
  destruct (chain bc) as [|b0 rest] eqn:E; [congruence|].
  cbn [length Nat.eqb]. rewrite <- E. destruct bc. reflexivity.
Qed.

Lemma run_adds_extends bs : forall bc,
  exists rest, chain (run_ops (map OpAddBlock bs) bc) = chain bc ++ rest.
Proof.
  induction bs as [|b bs IH]; intros bc; cbn [map run_ops fold_left].
  - exists []. rewrite app_nil_r. reflexivity.
  - destruct (IH (step_op bc (OpAddBlock b))) as [rest Hr].
    cbn [step_op] in Hr. unfold run_ops in Hr. cbn [step_op]. rewrite Hr.
    destruct (AddBlock b bc) as [[|] bc'] eqn:Ha; cbn [snd].
    + rewrite (AddBlock_true_snoc _ _ _ Ha). cbn [chain].
      exists (b :: rest). rewrite <- app_assoc. reflexivity.
    + rewrite (AddBlock_false_same _ _ _ Ha). exists rest. reflexivity.
Qed.

(** X4. The [main] that calls [CreateGenesis] again after a failed load
    ends with two genesis blocks, the second of which does not link to
    the first. Whatever blocks [AddBlock] appends afterwards, a file that
    decodes to the chain in memory is rejected by [LoadFromFile] with
    "invalid chain at index 1". *)
Theorem regenesis_never_reloads
    (now1 now2 : string) (file : file_content) (bs : list Block) (bc0 : Blockchain) :
  fst (LoadFromFile file (NewNode_chain now1)) <> None ->
  let bc := run_ops (map OpAddBlock bs) (main_start_regenesis now1 now2 file) in
  validate (chain bc) = Some 1%nat
  /\ LoadFromFile (Decoded (chain bc)) bc0 = (Some (ErrInvalidChainAt 1), bc0).
Proof.
  intros Hfail bc.
  assert (Hstart : main_start_regenesis now1 now2 file
                   = CreateGenesis now2 (NewNode_chain now1)).
  { unfold main_start_regenesis.
    pose proof (LoadFromFile_error_same file (NewNode_chain now1)) as Hk.
    destruct (LoadFromFile file (NewNode_chain now1)) as [[e|] bc1]; cbn [fst snd] in *.
    - rewrite (Hk Hfail). reflexivity.
    - destruct (Hfail eq_refl). }
  destruct (run_adds_extends bs (main_start_regenesis now1 now2 file)) as [rest Hr].
  fold bc in Hr. rewrite Hstart in Hr. cbn [CreateGenesis NewNode_chain chain app] in Hr.
  assert (Hv : validate (chain bc) = Some 1%nat).
  { rewrite Hr. cbn [app validate first_bad NewBlockchain chain].
    unfold bad_link. cbn [PrevHash Hash set_Hash].
    destruct (String.eqb_spec "" (calculateHash (mkBlock "" "" 0 now1 "genesis" "" "" 0)))
      as [E|_]; [|reflexivity].
    symmetry in E. destruct (calculateHash_nonempty _ E). }
  split; [exact Hv|].
  unfold LoadFromFile. rewrite Hv, Hr. reflexivity.
Qed.

Lemma regenesis_never_reloads_witness :
  validate (chain (run_ops (map OpAddBlock [])
                     (main_start_regenesis t0 t0 ReadFailed))) = Some 1%nat
  /\ LoadFromFile (Decoded (chain (run_ops (map OpAddBlock [])
                     (main_start_regenesis t0 t0 ReadFailed)))) genesis_chain
     = (Some (ErrInvalidChainAt 1), genesis_chain).
Proof.
  apply (regenesis_never_reloads t0 t0 ReadFailed [] genesis_chain).
  vm_compute. discriminate.
Defined.

(** X5. The hashed text has no separators: moving a prefix of the data
    to the end of the timestamp leaves [calculateHash] unchanged, so the
    validation loops and [AddBlock] cannot tell the two blocks apart. *)
Theorem calculateHash_boundary_shift
    (pk sg : string) (i : Z) (t s d p h : string) (n : Z) :
  let b1 := mkBlock pk sg i t (s +:+ d) p h n in
  let b2 := mkBlock pk sg i (t +:+ s) d p h n in
  calculateHash b2 = calculateHash b1
  /\ (forall prev, bad_link prev b2 = bad_link prev b1)
  /\ (forall bc, fst (AddBlock b2 bc) = fst (AddBlock b1 bc)).
Proof.
  intros b1 b2.
  assert (Hh : calculateHash b2 = calculateHash b1).
  { unfold calculateHash, record, b1, b2. cbn [Index Timestamp Data PrevHash Nonce].
    rewrite !append_assoc3. reflexivity. }
  split; [exact Hh|]. split.
  - intros prev. unfold bad_link. rewrite Hh. reflexivity.
  - intros bc. unfold AddBlock. rewrite Hh.
    destruct (Latest bc) as [latest|]; [|reflexivity].
    change (Index b2) with (Index b1). change (PrevHash b2) with (PrevHash b1).
    change (Hash b2) with (Hash b1).
    repeat match goal with
           | |- context [if ?c then _ else _] => destruct c
           end; reflexivity.
Qed.

(** ** Mining *)

Lemma nth_nonce_shift b j :
  nth_nonce (set_Nonce (add_int (Nonce b) 1) b) j = nth_nonce b (S j).
Proof.
  unfold nth_nonce. cbn [Nonce set_Nonce].
  induction j as [|j IH]; [reflexivity|].
  change (add_int (Nat.iter j (fun n => add_int n 1) (add_int (Nonce b) 1)) 1
          = add_int (Nat.iter (S j) (fun n => add_int n 1) (Nonce b)) 1).
  rewrite IH. reflexivity.
Qed.

Lemma mine_first fuel : forall b r,
  mine fuel b = Some r ->
  exists k, (0 < k <= fuel)%nat
    /\ r = set_Hash (calculateHash (set_Nonce (nth_nonce b k) b))
                    (set_Nonce (nth_nonce b k) b)
    /\ sealed (calculateHash (set_Nonce (nth_nonce b k) b)) = true
    /\ forall j, (0 < j < k)%nat ->
         sealed (calculateHash (set_Nonce (nth_nonce b j) b)) = false.
Proof.
  induction fuel as [|f IH]; intros b r; cbn [mine]; [discriminate|].
  destruct (sealed (calculateHash (set_Nonce (add_int (Nonce b) 1) b))) eqn:Hs.
  - intros [= <-]. exists 1%nat. split; [lia|]. split; [reflexivity|].
    split; [exact Hs|]. intros j Hj. lia.
  - intros Hm. destruct (IH _ _ Hm) as (k & Hk & Hr & Hsk & Hmin).
    rewrite nth_nonce_shift in Hr, Hsk.
    exists (S k). split; [lia|]. split; [exact Hr|]. split; [exact Hsk|].
    intros [|[|j]] Hj; [lia|exact Hs|].
    specialize (Hmin (S j) ltac:(lia)). rewrite nth_nonce_shift in Hmin. exact Hmin.
Qed.

Lemma mine_enough k : forall b fuel,
  (0 < k <= fuel)%nat ->
  sealed (calculateHash (set_Nonce (nth_nonce b k) b)) = true ->
  (forall j, (0 < j < k)%nat ->
     sealed (calculateHash (set_Nonce (nth_nonce b j) b)) = false) ->
  mine fuel b = Some (set_Hash (calculateHash (set_Nonce (nth_nonce b k) b))
                               (set_Nonce (nth_nonce b k) b)).
Proof.
  induction k as [|k IH]; intros b fuel Hk Hs Hmin; [lia|].
  destruct fuel as [|f]; [lia|]. cbn [mine].
  destruct k as [|k].
  - change (nth_nonce b 1) with (add_int (Nonce b) 1) in *. rewrite Hs. reflexivity.
  - pose proof (Hmin 1%nat ltac:(lia)) as H1.
    change (nth_nonce b 1) with (add_int (Nonce b) 1) in H1. rewrite H1.
    rewrite <- (nth_nonce_shift b (S k)) in *.
    apply (IH (set_Nonce (add_int (Nonce b) 1) b) f); [lia|exact Hs|].
    intros j Hj. specialize (Hmin (S j) ltac:(lia)).
    rewrite <- nth_nonce_shift in Hmin. exact Hmin.
Qed.

(** X6. When [mine] returns, the nonce of the result is the first one,
    counting up from the nonce of its argument, whose digest is sealed;
    the result carries that digest, and it is the same for every larger
    bound on the number of turns. *)
Theorem mine_first_sealing_nonce (fuel : nat) (b r : Block) :
  mine fuel b = Some r ->
  exists k, (0 < k <= fuel)%nat
    /\ Nonce r = nth_nonce b k
    /\ Hash r = calculateHash r
    /\ sealed (Hash r) = true
    /\ (forall j, (0 < j < k)%nat ->
          sealed (calculateHash (set_Nonce (nth_nonce b j) b)) = false)
    /\ (forall fuel', (k <= fuel')%nat -> mine fuel' b = Some r).
Proof.
  intros Hm. destruct (mine_first _ _ _ Hm) as (k & Hk & Hr & Hs & Hmin).
  exists k. split; [exact Hk|]. split; [rewrite Hr; reflexivity|].
  split; [rewrite Hr at 1; rewrite Hr; reflexivity|].
  split; [rewrite Hr; exact Hs|]. split; [exact Hmin|].
  intros fuel' Hf. rewrite Hr. apply mine_enough; [lia|exact Hs|exact Hmin].
Qed.

Lemma mine_first_sealing_nonce_witness :
  exists k, (0 < k <= 1)%nat
    /\ Nonce block1 = nth_nonce (set_Nonce 165 (set_Hash "" block1)) k
    /\ Hash block1 = calculateHash block1
    /\ sealed (Hash block1) = true
    /\ (forall j, (0 < j < k)%nat ->
          sealed (calculateHash (set_Nonce
             (nth_nonce (set_Nonce 165 (set_Hash "" block1)) j)
             (set_Nonce 165 (set_Hash "" block1)))) = false)
    /\ (forall fuel', (k <= fuel')%nat ->
          mine fuel' (set_Nonce 165 (set_Hash "" block1)) = Some block1).
Proof.
  apply (mine_first_sealing_nonce 1 (set_Nonce 165 (set_Hash "" block1)) block1).
  vm_compute. reflexivity.
Defined.

Lemma append_length (a b : string) :
  String.length (a +:+ b) = (String.length a + String.length b)%nat.
Proof.
  induction a as [|x a IH]; [reflexivity|].
  change (S (String.length (a +:+ b)) = S (String.length a + String.length b)).
  rewrite IH. reflexivity.
Qed.

Lemma repeat_loop_length s k : forall out,
  String.length (repeat_loop s k out)
  = (String.length out + k * String.length s)%nat.
Proof.
  induction k as [|k IH]; intros out; cbn [repeat_loop]; [lia|].
  rewrite IH, append_length. lia.
Qed.

(** X7. [stringsRepeat s count] is empty for a count of zero or less and
    otherwise has [count] times the length of [s]; the test of [mine]
    holds exactly for the digests that start with two zero digits. *)
Theorem sealed_iff_prefix (s h : string) (count : Z) :
  String.length (stringsRepeat s count) = (Z.to_nat count * String.length s)%nat
  /\ (count <= 0 -> stringsRepeat s count = "")
  /\ (sealed h = true <-> exists rest, h = "00" +:+ rest).
Proof.
  split; [|split].
  - unfold stringsRepeat. destruct (Z.leb_spec count 0) as [Hle|Hgt].
    + replace (Z.to_nat count) with 0%nat by lia. reflexivity.
    + rewrite repeat_loop_length. reflexivity.
  - intros Hle. unfold stringsRepeat.
    destruct (Z.leb_spec count 0); [reflexivity|lia].
  - unfold sealed. change (stringsRepeat "0" difficulty) with "00".
    change (Z.to_nat difficulty) with 2%nat.
    rewrite String.eqb_eq. split.
    + destruct h as [|c1 [|c2 rest]]; cbn [substring]; try discriminate.
      intros E. exists rest.
      assert (Hz : substring 0 0 rest = "") by (destruct rest; reflexivity).
      rewrite Hz in E. injection E as -> ->. reflexivity.
    + intros [rest ->]. cbn. destruct rest; reflexivity.
Qed.

(** ** Locally made blocks, signing and verification *)


Lemma GenerateBlock_shape fuel now data bc b :
  GenerateBlock fuel now data bc = Some b ->
  Signature b = "" /\ PubKey b = "" /\ Data b = data /\ Timestamp b = now
  /\ Hash b = calculateHash b.
Proof.
  unfold GenerateBlock. intros Hg.
  destruct (Latest bc) as [latest|] eqn:HL;
    destruct (mine_sound _ _ _ Hg) as [Hb _];
    (split; [rewrite Hb; reflexivity|]); (split; [rewrite Hb; reflexivity|]);
    (split; [rewrite Hb; reflexivity|]); (split; [rewrite Hb; reflexivity|]);
    rewrite Hb at 1; reflexivity.
Qed.

(** X8. A block made by [GenerateBlock] carries no signature and no
    public key, so [VerifyBlockSignature] answers false on it, and a
    receiver, by transport or by gossip, drops it before it calls
    [AddBlock]: the handler returns with no effect, and the chain and
    the mutex are as they were, whatever the state of the mutex. *)
Theorem generated_block_rejected_by_peers
    (check : list Z -> list Z -> list Z -> bool)
    (fuel : nat) (now data : string) (bc peer_bc : Blockchain) (b : Block) :
  GenerateBlock fuel now data bc = Some b ->
  Signature b = "" /\ PubKey b = ""
  /\ VerifyBlockSignature check b = Ret false
  /\ handleBlock check b peer_bc = Ret (peer_bc, [])
  /\ handleBlockMessage check false (Some b) peer_bc = Ret (peer_bc, [])
  /\ (forall g, Mu.handleBlock check b g = Mu.Returns [] g)
  /\ (forall g, Mu.handleBlockMessage check false (Some b) g = Mu.Returns [] g).
Proof.
  intros Hg. destruct (GenerateBlock_shape _ _ _ _ _ Hg) as (Hs & Hp & _).
  assert (Hv : VerifyBlockSignature check b = Ret false).
  { apply VerifyBlockSignature_empty. left. exact Hs. }
  split; [exact Hs|]. split; [exact Hp|]. split; [exact Hv|].
  split; [unfold handleBlock; rewrite Hv; reflexivity|].
  split; [unfold handleBlockMessage; rewrite Hv; reflexivity|].
  split; intros g.
  - unfold Mu.handleBlock, Mu.bind, Mu.verify. rewrite Hv. reflexivity.
  - unfold Mu.handleBlockMessage, Mu.bind, Mu.verify. rewrite Hv. reflexivity.
Qed.

Lemma generated_block_rejected_by_peers_witness :
  Signature block1 = "" /\ PubKey block1 = ""
  /\ VerifyBlockSignature accept_all block1 = Ret false
  /\ handleBlock accept_all block1 genesis_chain = Ret (genesis_chain, [])
  /\ handleBlockMessage accept_all false (Some block1) genesis_chain
     = Ret (genesis_chain, [])
  /\ (forall g, Mu.handleBlock accept_all block1 g = Mu.Returns [] g)
  /\ (forall g, Mu.handleBlockMessage accept_all false (Some block1) g = Mu.Returns [] g).
Proof.
  apply (generated_block_rejected_by_peers accept_all 166 t0 "hello"
           genesis_chain genesis_chain block1).
  vm_compute. reflexivity.
Defined.


Lemma fromHexChar_range c h : Hex.fromHexChar c = Some h -> 0 <= h < 16.
Proof.
  unfold Hex.fromHexChar.
  repeat match goal with
         | |- context [?a <=? ?b] => destruct (Z.leb_spec a b)
         end; cbn [andb]; intros [= <-]; lia.
Qed.

Lemma fromHexChar_digit q : 0 <= q < 16 -> Hex.fromHexChar (Hex.digit q) = Some q.
Proof.
  intros Hq.
  assert (H : q = 0 \/ q = 1 \/ q = 2 \/ q = 3 \/ q = 4 \/ q = 5 \/ q = 6 \/ q = 7
              \/ q = 8 \/ q = 9 \/ q = 10 \/ q = 11 \/ q = 12 \/ q = 13 \/ q = 14
              \/ q = 15) by lia.
  repeat (destruct H as [-> | H]; [reflexivity|]). subst q. reflexivity.
Qed.

Lemma byte_split x :
  0 <= x < 256 ->
  0 <= Z.shiftr x 4 < 16 /\ 0 <= Z.land x 15 < 16
  /\ Z.shiftr x 4 * 16 + Z.land x 15 = x.
Proof.
  intros Hx. rewrite Z.shiftr_div_pow2 by lia.
  change 15 with (Z.ones 4). rewrite Z.land_ones by lia.
  change (2 ^ 4) with 16.
  pose proof (Z.div_mod x 16 ltac:(lia)).
  pose proof (Z.mod_pos_bound x 16 ltac:(lia)).
  assert (0 <= x / 16 < 16) by (split; [apply Z.div_pos; lia|apply Z.div_lt_upper_bound; lia]).
  lia.
Qed.

(** Decoding undoes encoding on bytes. *)
Lemma DecodeString_EncodeToString bs :
  Forall (fun x => 0 <= x < 256) bs ->
  Hex.DecodeString (Hex.EncodeToString bs) = Some bs.
Proof.
  induction 1 as [|x bs Hx _ IH]; [reflexivity|].
  destruct (byte_split x Hx) as (Hh & Hl & Hsum).
  cbn [Hex.EncodeToString Hex.DecodeString].
  rewrite (fromHexChar_digit _ Hh), (fromHexChar_digit _ Hl), IH, Hsum. reflexivity.
Qed.

(** Two characters at a time: a statement about [s] and about [s] behind
    one more character. *)
Lemma DecodeString_bytes_aux s :
  (forall bs, Hex.DecodeString s = Some bs -> Forall (fun x => 0 <= x < 256) bs)
  /\ (forall a bs, Hex.DecodeString (String a s) = Some bs ->
        Forall (fun x => 0 <= x < 256) bs).
Proof.
  induction s as [|c s [IH1 IH2]].
  - split; [intros bs [= <-]; constructor|discriminate].
  - split; [exact (IH2 c)|].
    intros a bs. cbn [Hex.DecodeString].
    destruct (Hex.fromHexChar a) as [h|] eqn:Ha; [|discriminate].
    destruct (Hex.fromHexChar c) as [l|] eqn:Hc; [|discriminate].
    destruct (Hex.DecodeString s) as [rest|] eqn:Hr; [|discriminate].
    intros [= <-]. constructor; [|apply IH1; reflexivity].
    pose proof (fromHexChar_range _ _ Ha). pose proof (fromHexChar_range _ _ Hc). lia.
Qed.

Lemma DecodeString_bad_char_aux s1 :
  (forall c s2, Hex.fromHexChar c = None ->
     Hex.DecodeString (s1 +:+ String c s2) = None)
  /\ (forall a c s2, Hex.fromHexChar c = None ->
     Hex.DecodeString (String a (s1 +:+ String c s2)) = None).
Proof.
  induction s1 as [|x s1 [IH1 IH2]].
  - split.
    + intros c s2 Hc. change ("" +:+ String c s2) with (String c s2).
      destruct s2 as [|c2 s2]; [reflexivity|].
      cbn [Hex.DecodeString]. rewrite Hc. reflexivity.
    + intros a c s2 Hc. change ("" +:+ String c s2) with (String c s2).
      cbn [Hex.DecodeString]. rewrite Hc.
      destruct (Hex.fromHexChar a); reflexivity.
  - split.
    + intros c s2 Hc. exact (IH2 x c s2 Hc).
    + intros a c s2 Hc.
      change (String x s1 +:+ String c s2) with (String x (s1 +:+ String c s2)).
      cbn [Hex.DecodeString]. rewrite (IH1 c s2 Hc).
      destruct (Hex.fromHexChar a); [destruct (Hex.fromHexChar x)|]; reflexivity.
Qed.

Lemma calculateHash_set_Signature sig pub b :
  calculateHash (set_Signature sig pub b) = calculateHash b.
Proof. reflexivity. Qed.

Lemma EncodeToString_nonempty x bs :
  String.eqb (Hex.EncodeToString (x :: bs)) "" = false.
Proof. reflexivity. Qed.

(** X11. Signing then verifying: when [SignBlock] succeeds with a key
    under which Ed25519 is correct on the block's digest (the signature
    has 64 bytes and checks against the second half of the key),
    [VerifyBlockSignature] returns true on the signed block, which
    carries the signature and the second half of the key in
    hexadecimal. *)
Theorem SignBlock_then_Verify
    (sign : list Z -> list Z -> list Z) (check : list Z -> list Z -> list Z -> bool)
    (b b' : Block) (privHex : string) (priv : list Z) :
  let msg := SHA256.bytes_of_string (calculateHash b) in
  Hex.DecodeString privHex = Some priv ->
  SignBlock sign b privHex = (None, b') ->
  length (sign priv msg) = 64%nat ->
  Forall (fun x => 0 <= x < 256) (sign priv msg) ->
  check (skipn 32 priv) msg (sign priv msg) = true ->
  VerifyBlockSignature check b' = Ret true
  /\ Signature b' = Hex.EncodeToString (sign priv msg)
  /\ PubKey b' = Hex.EncodeToString (skipn 32 priv).
Proof.
  intros msg Hdec Hsign Hlen Hbytes Hcheck. subst msg.
  unfold SignBlock in Hsign. rewrite Hdec in Hsign.
  destruct (Nat.eqb_spec (length priv) 64) as [Hl|]; [|discriminate].
  cbn [negb] in Hsign. injection Hsign as <-.
  set (sig := sign priv (SHA256.bytes_of_string (calculateHash b))) in *.
  assert (Hpub : Forall (fun x => 0 <= x < 256) (skipn 32 priv)).
  { apply Forall_drop, (proj1 (DecodeString_bytes_aux privHex) priv Hdec). }
  assert (Hpl : length (skipn 32 priv) = 32%nat) by (rewrite length_skipn; lia).
  assert (Hn1 : String.eqb (Hex.EncodeToString sig) "" = false).
  { destruct sig; [discriminate Hlen|reflexivity]. }
  assert (Hn2 : String.eqb (Hex.EncodeToString (skipn 32 priv)) "" = false).
  { destruct (skipn 32 priv); [discriminate Hpl|reflexivity]. }
  split; [|split; reflexivity].
  unfold VerifyBlockSignature, ed25519_Verify. cbn [Signature PubKey set_Signature].
  rewrite Hn1, Hn2. cbn [orb].
  rewrite (DecodeString_EncodeToString _ Hpub), (DecodeString_EncodeToString _ Hbytes).
  rewrite Hpl, Hlen. cbn [Nat.eqb negb].
  rewrite calculateHash_set_Signature, Hcheck. reflexivity.
Qed.

Lemma SignBlock_then_Verify_witness :
  VerifyBlockSignature accept_all (snd (SignBlock toy_sign block1 toy_priv_hex)) = Ret true
  /\ Signature (snd (SignBlock toy_sign block1 toy_priv_hex))
     = Hex.EncodeToString
         (toy_sign (repeat 0 64) (SHA256.bytes_of_string (calculateHash block1)))
  /\ PubKey (snd (SignBlock toy_sign block1 toy_priv_hex))
     = Hex.EncodeToString (skipn 32 (repeat 0 64)).
Proof.
  apply (SignBlock_then_Verify toy_sign accept_all block1
           (snd (SignBlock toy_sign block1 toy_priv_hex)) toy_priv_hex (repeat 0 64)).
  - vm_compute. reflexivity.
  - vm_compute. reflexivity.
  - reflexivity.
  - unfold toy_sign. apply Forall_forall. intros x Hx.
    apply list_elem_of_In, repeat_spec in Hx. lia.
  - reflexivity.
Defined.

(** X12. A key text with a character that is no hexadecimal digit, such
    as the newline that ends a key file, makes [SignBlock] return an
    error and leave the block unsigned; [handleConn] drops that error, so
    the "tx" case then behaves as if there were no key file. *)
Theorem SignBlock_rejects_stray_byte
    (sign : list Z -> list Z -> list Z) (b : Block) (k1 k2 : string) (c : ascii) :
  Hex.fromHexChar c = None ->
  SignBlock sign b (k1 +:+ String c k2) = (Some ErrPrivHex, b)
  /\ (forall fuel now bridge data bc,
        handleTx sign fuel now bridge (Some (k1 +:+ String c k2)) data bc
        = handleTx sign fuel now bridge None data bc).
Proof.
  intros Hc.
  assert (Hs : forall b0, SignBlock sign b0 (k1 +:+ String c k2) = (Some ErrPrivHex, b0)).
  { intros b0. unfold SignBlock.
    rewrite (proj1 (DecodeString_bad_char_aux k1) c k2 Hc). reflexivity. }
  split; [apply Hs|].
  intros fuel now bridge data bc. unfold handleTx.
  destruct (match bridge with Some bb => Some bb | None => GenerateBlock fuel now data bc end)
    as [newB|]; [|reflexivity].
  rewrite Hs. reflexivity.
Qed.

Lemma SignBlock_rejects_stray_byte_witness :
  SignBlock toy_sign block1 (toy_priv_hex +:+ String (ascii_of_nat 10) "")
    = (Some ErrPrivHex, block1)
  /\ (forall fuel now bridge data bc,
        handleTx toy_sign fuel now bridge
          (Some (toy_priv_hex +:+ String (ascii_of_nat 10) "")) data bc
        = handleTx toy_sign fuel now bridge None data bc).
Proof.
  apply (SignBlock_rejects_stray_byte toy_sign block1 toy_priv_hex "" (ascii_of_nat 10)).
  reflexivity.
Defined.

(** X13. A block whose signature and public key are non-empty and
    decode, but whose public key is not 32 bytes long, makes
    [ed25519.Verify] panic: [VerifyBlockSignature], both block handlers
    and [HandlePBFTPrePrepare] panic on it, whatever the chain and the
    PBFT state are. *)
Theorem short_public_key_panics
    (check : list Z -> list Z -> list Z -> bool) (b : Block) (pub sig : list Z) :
  Signature b <> "" -> PubKey b <> "" ->
  Hex.DecodeString (PubKey b) = Some pub ->
  Hex.DecodeString (Signature b) = Some sig ->
  length pub <> 32%nat ->
  VerifyBlockSignature check b = Panic
  /\ (forall bc, handleBlock check b bc = Panic)
  /\ (forall bc, handleBlockMessage check false (Some b) bc = Panic)
  /\ (forall sign view seq leader s n g,
        HandlePBFTPrePrepare check sign
          (Some (mkPrePrepare view seq (Some b) leader s)) n g = Panic).
Proof.
  intros Hs Hp Hpub Hsig Hlen.
  assert (Hv : VerifyBlockSignature check b = Panic).
  { unfold VerifyBlockSignature, ed25519_Verify.
    destruct (String.eqb_spec (Signature b) ""); [contradiction|].
    destruct (String.eqb_spec (PubKey b) ""); [contradiction|].
    cbn [orb]. rewrite Hpub, Hsig.
    destruct (Nat.eqb_spec (length pub) 32); [contradiction|reflexivity]. }
  split; [exact Hv|]. split; [|split].
  - intros bc. unfold handleBlock. rewrite Hv. reflexivity.
  - intros bc. unfold handleBlockMessage. rewrite Hv. reflexivity.
  - intros. unfold HandlePBFTPrePrepare. cbn [pp_Block]. rewrite Hv. reflexivity.
Qed.

Lemma short_public_key_panics_witness :
  VerifyBlockSignature accept_all short_key_block = Panic
  /\ (forall bc, handleBlock accept_all short_key_block bc = Panic)
  /\ (forall bc, handleBlockMessage accept_all false (Some short_key_block) bc = Panic)
  /\ (forall sign view seq leader s n g,
        HandlePBFTPrePrepare accept_all sign
          (Some (mkPrePrepare view seq (Some short_key_block) leader s)) n g = Panic).
Proof.
  apply (short_public_key_panics accept_all short_key_block [171] [205]).
  - discriminate.
  - discriminate.
  - reflexivity.
  - reflexivity.
  - cbn. lia.
Defined.

(** * Further properties of the node *)

(** ** The peer set *)

Lemma Node_eq n1 n2 :
  Port n1 = Port n2 -> peers n1 = peers n2 ->
  validators_file n1 = validators_file n2 -> n1 = n2.
Proof. destruct n1, n2; cbn; intros -> -> ->; reflexivity. Qed.

Lemma addPeer_fields a n :
  Port (addPeer a n) = Port n
  /\ validators_file (addPeer a n) = validators_file n
  /\ peers (addPeer a n) = peers n ∪ ({[a]} ∖ {[""]}).
Proof.
  unfold addPeer. destruct (String.eqb_spec a "") as [->|Hne].
  - split; [reflexivity|]. split; [reflexivity|]. set_solver.
  - destruct (decide (a ∈ peers n)) as [Hin|Hnin]; cbn [Port validators_file peers].
    + split; [reflexivity|]. split; [reflexivity|]. set_solver.
    + split; [reflexivity|]. split; [reflexivity|]. set_solver.
Qed.

Lemma merge_peers_fields pl : forall n,
  let n' := fold_left (fun acc p => if String.eqb p "" then acc else addPeer p acc) pl n in
  Port n' = Port n
  /\ validators_file n' = validators_file n
  /\ peers n' = peers n ∪ (list_to_set pl ∖ {[""]}).
Proof.
  induction pl as [|p pl IH]; intros n; cbn [fold_left list_to_set].
  - split; [reflexivity|]. split; [reflexivity|]. set_solver.
  - destruct (String.eqb_spec p "") as [->|Hne].
    + destruct (IH n) as (Hp & Hv & Hs). split; [exact Hp|]. split; [exact Hv|].
      rewrite Hs. set_solver.
    + destruct (IH (addPeer p n)) as (Hp & Hv & Hs).
      destruct (addPeer_fields p n) as (Hp' & Hv' & Hs').
      split; [congruence|]. split; [congruence|].
      rewrite Hs, Hs'. set_solver.
Qed.

(** X14. Handling a "peerList" message merges the non-empty entries of
    the list into the peer set and changes nothing else of the node; no
    peer is ever removed, the empty address is never added, the reply
    lists the merged set, and handling the same list again changes
    nothing. *)
Theorem handlePeerList_merges (pl : list string) (n : Node) :
  let n' := fst (handlePeerList pl n) in
  peers n' = peers n ∪ (list_to_set pl ∖ {[""]})
  /\ Port n' = Port n /\ validators_file n' = validators_file n
  /\ peers n ⊆ peers n'
  /\ ("" ∈ peers n' <-> "" ∈ peers n)
  /\ snd (handlePeerList pl n) = [SendPeerList (elements (peers n'))]
  /\ handlePeerList pl n' = handlePeerList pl n.
Proof.
  intros n'. unfold handlePeerList in *. cbn [fst snd] in *.
  destruct (merge_peers_fields pl n) as (Hp & Hv & Hs). fold n' in Hp, Hv, Hs.
  split; [exact Hs|]. split; [exact Hp|]. split; [exact Hv|].
  split; [rewrite Hs; set_solver|]. split; [rewrite Hs; set_solver|].
  split; [reflexivity|].
  destruct (merge_peers_fields pl n') as (Hp2 & Hv2 & Hs2).
  assert (E : fold_left (fun acc p => if String.eqb p "" then acc else addPeer p acc) pl n'
              = n').
  { apply Node_eq; [exact Hp2|rewrite Hs2, Hs; set_solver|exact Hv2]. }
  rewrite E. reflexivity.
Qed.

(** ** The threshold and the leader *)

(** X15. The threshold [(2*n)/3 + 1] is at least 1, exceeds two thirds
    of the roster size [n] by at most one vote, is within [n] exactly
    when the roster is not empty, and twice the threshold exceeds [n] by
    more than a third of [n]. *)
Theorem needed_bounds (l : list string) :
  (1 <= needed l)%nat
  /\ (2 * length l < 3 * needed l <= 2 * length l + 3)%nat
  /\ ((needed l <= length l)%nat <-> l <> [])
  /\ (length l < 3 * (2 * needed l - length l))%nat.
Proof.
  unfold needed.
  pose proof (Nat.div_mod_eq (2 * length l) 3) as Hd.
  pose proof (Nat.mod_upper_bound (2 * length l) 3 ltac:(lia)) as Hm.
  split; [lia|]. split; [lia|]. split; [|lia].
  destruct l as [|x l]; cbn [length] in *.
  - split; [cbn; lia|congruence].
  - split; [discriminate|]. intros _. lia.
Qed.

Lemma size_insert_pos {V} (m : gmap string V) k v : (1 <= size (<[k := v]> m))%nat.
Proof.
  destruct (size (<[k := v]> m)) eqn:E; [|lia].
  apply map_size_empty_inv in E.
  pose proof (lookup_insert_eq m k v) as Hl. rewrite E, lookup_empty in Hl. discriminate.
Qed.

(** X16. With a roster of at most one entry the threshold is 1: every
    Commit request that decodes notifies the bridge, and every Prepare
    request that decodes posts a Commit to each roster entry, whoever the
    voter is and whatever the state holds. *)
Theorem single_vote_reaches_threshold
    (sign : string -> string) (n : Node) (st : PBFT) :
  (length (getValidatorList n) <= 1)%nat ->
  (forall cm, In (BridgeCommitBlock (c_Hash cm)) (snd (HandlePBFTCommit (Some cm) n st)))
  /\ (forall pm,
        snd (HandlePBFTPrepare sign (Some pm) n st)
        = map (fun addr =>
                 PostCommit addr
                   (mkCommit (p_View pm) (p_Seq pm) (p_Hash pm) (":" +:+ Port n)
                      (sign (vote_text (p_Hash pm) (p_Seq pm) (p_View pm)))))
              (getValidatorList n)
          ++ [HttpWrite ok_body]).
Proof.
  intros Hlen.
  assert (Hn : needed (getValidatorList n) = 1%nat).
  { unfold needed. destruct (getValidatorList n) as [|x [|y l]]; cbn in *; [reflexivity|reflexivity|lia]. }
  split.
  - intros cm. cbn [HandlePBFTCommit snd]. rewrite Hn.
    destruct (Nat.leb_spec 1 (size (<[c_Voter cm := cm]> (inner (commits st) (c_Seq cm)))))
      as [_|Hlt]; [left; reflexivity|].
    pose proof (size_insert_pos (inner (commits st) (c_Seq cm)) (c_Voter cm) cm). lia.
  - intros pm. cbn [HandlePBFTPrepare snd]. rewrite Hn.
    destruct (Nat.leb_spec 1 (size (<[p_Voter pm := pm]> (inner (prepares st) (p_Seq pm)))))
      as [_|Hlt]; [reflexivity|].
    pose proof (size_insert_pos (inner (prepares st) (p_Seq pm)) (p_Voter pm) pm). lia.
Qed.

Lemma single_vote_reaches_threshold_witness :
  (forall cm, In (BridgeCommitBlock (c_Hash cm))
                (snd (HandlePBFTCommit (Some cm) (mkNode "8080" ∅ None) pbft_init)))
  /\ (forall pm,
        snd (HandlePBFTPrepare no_key (Some pm) (mkNode "8080" ∅ None) pbft_init)
        = map (fun addr =>
                 PostCommit addr
                   (mkCommit (p_View pm) (p_Seq pm) (p_Hash pm)
                      (":" +:+ Port (mkNode "8080" ∅ None))
                      (no_key (vote_text (p_Hash pm) (p_Seq pm) (p_View pm)))))
              (getValidatorList (mkNode "8080" ∅ None))
          ++ [HttpWrite ok_body]).
Proof.
  apply (single_vote_reaches_threshold no_key (mkNode "8080" ∅ None) pbft_init).
  vm_compute. lia.
Defined.

Lemma isLeaderFor_nonneg n view seq :
  0 <= seq -> getValidatorList n <> [] ->
  exists leader,
    getValidatorList n !! Z.to_nat (seq mod Z.of_nat (length (getValidatorList n)))
      = Some leader
    /\ isLeaderFor n view seq = Ret (is_me n leader).
Proof.
  intros Hseq Hne. unfold isLeaderFor.
  set (vals := getValidatorList n) in *.
  assert (Hlen : (0 < length vals)%nat) by (destruct vals; [congruence|cbn; lia]).
  destruct (Nat.eqb_spec (length vals) 0) as [E|_]; [lia|].
  rewrite Z.rem_mod_nonneg by lia.
  pose proof (Z.mod_pos_bound seq (Z.of_nat (length vals)) ltac:(lia)) as Hb.
  destruct (Z.ltb_spec (seq mod Z.of_nat (length vals)) 0) as [Hneg|_]; [lia|].
  destruct (lookup_lt_is_Some_2 vals (Z.to_nat (seq mod Z.of_nat (length vals)))
              ltac:(lia)) as [leader Hl].
  exists leader. rewrite Hl. split; reflexivity.
Qed.

(** X17. With a roster file that holds at least one address,
    [isLeaderFor] never panics on a sequence number that is not
    negative: it tells whether the entry of the file at [seq mod n] is
    this node's address in one of its three spellings. The answer does
    not depend on the view, nor on the peers, and repeats every [n]
    sequence numbers. *)
Theorem isLeaderFor_round_robin (n : Node) (out : list string) (view view' seq : Z) :
  0 <= seq -> validators_file n = Some out -> out <> [] ->
  let len := Z.of_nat (length out) in
  (exists leader,
      out !! Z.to_nat (seq mod len) = Some leader
      /\ isLeaderFor n view seq = Ret (is_me n leader))
  /\ isLeaderFor n view' seq = isLeaderFor n view seq
  /\ (forall ps, isLeaderFor (mkNode (Port n) ps (Some out)) view seq
                 = isLeaderFor n view seq)
  /\ isLeaderFor n view (seq + len) = isLeaderFor n view seq.
Proof.
  intros Hseq Hf Hout len.
  destruct n as [p ps0 f]. cbn [validators_file Port] in *. subst f.
  assert (Hv : forall ps, getValidatorList (mkNode p ps (Some out)) = out).
  { intros ps. unfold getValidatorList. cbn [validators_file].
    destruct out; [congruence|reflexivity]. }
  set (n := mkNode p ps0 (Some out)).
  assert (Hvn : getValidatorList n = out) by apply Hv.
  assert (Hne : getValidatorList n <> []) by (rewrite Hvn; exact Hout).
  assert (Hlen : 0 < len).
  { unfold len. destruct out; [congruence|cbn [length]; lia]. }
  split.
  { destruct (isLeaderFor_nonneg n view seq Hseq Hne) as (l1 & Hl1 & Hr).
    rewrite Hvn in Hl1. exists l1. split; [exact Hl1|exact Hr]. }
  split; [reflexivity|].
  split.
  - intros ps. unfold isLeaderFor. rewrite Hv, Hvn. reflexivity.
  - destruct (isLeaderFor_nonneg n view seq Hseq Hne) as (l1 & Hl1 & ->).
    destruct (isLeaderFor_nonneg n view (seq + len) ltac:(lia) Hne) as (l2 & Hl2 & ->).
    rewrite Hvn in Hl1, Hl2. fold len in Hl1, Hl2.
    replace ((seq + len) mod len) with (seq mod len) in Hl2
      by (rewrite <- (Z.mul_1_l len) at 2; rewrite Z.mod_add by lia; reflexivity).
    congruence.
Qed.

Lemma isLeaderFor_round_robin_witness :
  let len := Z.of_nat (length [":v1"; ":v2"; ":v3"]) in
  (exists leader,
      [":v1"; ":v2"; ":v3"] !! Z.to_nat (7 mod len) = Some leader
      /\ isLeaderFor (mkNode "v2" ∅ (Some [":v1"; ":v2"; ":v3"])) 0 7
         = Ret (is_me (mkNode "v2" ∅ (Some [":v1"; ":v2"; ":v3"])) leader))
  /\ isLeaderFor (mkNode "v2" ∅ (Some [":v1"; ":v2"; ":v3"])) 4 7
     = isLeaderFor (mkNode "v2" ∅ (Some [":v1"; ":v2"; ":v3"])) 0 7
  /\ (forall ps,
        isLeaderFor (mkNode (Port (mkNode "v2" ∅ (Some [":v1"; ":v2"; ":v3"]))) ps
                       (Some [":v1"; ":v2"; ":v3"])) 0 7
        = isLeaderFor (mkNode "v2" ∅ (Some [":v1"; ":v2"; ":v3"])) 0 7)
  /\ isLeaderFor (mkNode "v2" ∅ (Some [":v1"; ":v2"; ":v3"])) 0 (7 + len)
     = isLeaderFor (mkNode "v2" ∅ (Some [":v1"; ":v2"; ":v3"])) 0 7.
Proof.
  apply (isLeaderFor_round_robin (mkNode "v2" ∅ (Some [":v1"; ":v2"; ":v3"]))
           [":v1"; ":v2"; ":v3"] 0 4 7).
  - lia.
  - reflexivity.
  - discriminate.
Defined.

(** X18. With an empty roster [isLeaderFor] answers false; for a negative
    sequence number that is no multiple of the roster size, Go's
    remainder is negative and indexing the roster with it panics. *)
Theorem isLeaderFor_edges (n : Node) (view seq : Z) :
  (getValidatorList n = [] -> isLeaderFor n view seq = Ret false)
  /\ (getValidatorList n <> [] -> seq < 0 ->
      Z.rem seq (Z.of_nat (length (getValidatorList n))) <> 0 ->
      isLeaderFor n view seq = Panic).
Proof.
  unfold isLeaderFor. split.
  - intros ->. reflexivity.
  - intros Hne Hseq Hrem.
    set (vals := getValidatorList n) in *.
    destruct (Nat.eqb_spec (length vals) 0) as [E|Hn0];
      [destruct vals; [congruence|discriminate E]|].
    pose proof (Z.rem_nonpos seq (Z.of_nat (length vals)) ltac:(lia) ltac:(lia)) as Hle.
    destruct (Z.ltb_spec (Z.rem seq (Z.of_nat (length vals))) 0) as [_|Hge];
      [reflexivity|lia].
Qed.

Lemma isLeaderFor_edges_witness :
  (getValidatorList (mkNode "v2" ∅ None) = [] ->
     isLeaderFor (mkNode "v2" ∅ None) 0 3 = Ret false)
  /\ isLeaderFor (mkNode "v2" ∅ (Some [":v1"; ":v2"; ":v3"])) 0 (-1) = Panic.
Proof.
  split.
  - apply (proj1 (isLeaderFor_edges (mkNode "v2" ∅ None) 0 3)).
  - apply (proj2 (isLeaderFor_edges (mkNode "v2" ∅ (Some [":v1"; ":v2"; ":v3"])) 0 (-1))).
    + discriminate.
    + lia.
    + vm_compute. discriminate.
Defined.

(** ** Vote accumulation *)

Lemma inner_insert_eq' {K V} `{Countable K} (m : gmap K (gmap string V)) k set :
  inner (<[k := set]> m) k = set.
Proof. unfold inner. rewrite lookup_insert_eq. reflexivity. Qed.

Lemma inner_insert_ne' {K V} `{Countable K} (m : gmap K (gmap string V)) k k' set :
  k <> k' -> inner (<[k := set]> m) k' = inner m k'.
Proof. intros Hne. unfold inner. rewrite lookup_insert_ne by exact Hne. reflexivity. Qed.

Lemma dom_inner_insert {K V} `{Countable K} (m : gmap K (gmap string V)) k voter x k' :
  dom (inner m k') ⊆ dom (inner (<[k := <[voter := x]> (inner m k)]> m) k').
Proof.
  destruct (decide (k = k')) as [<-|Hne].
  - rewrite inner_insert_eq', dom_insert_L. set_solver.
  - rewrite inner_insert_ne' by exact Hne. reflexivity.
Qed.

Lemma keyed_insert {K V} `{Countable K} (P : K -> string -> V -> Prop)
    (m : gmap K (gmap string V)) k0 v0 x0 :
  (forall k voter x, inner m k !! voter = Some x -> P k voter x) ->
  P k0 v0 x0 ->
  forall k voter x,
    inner (<[k0 := <[v0 := x0]> (inner m k0)]> m) k !! voter = Some x -> P k voter x.
Proof.
  intros Hm H0 k voter x.
  destruct (decide (k0 = k)) as [<-|Hne].
  - rewrite inner_insert_eq'.
    destruct (decide (v0 = voter)) as [<-|Hv].
    + rewrite lookup_insert_eq. intros [= <-]. exact H0.
    + rewrite lookup_insert_ne by exact Hv. apply Hm.
  - rewrite inner_insert_ne' by exact Hne. apply Hm.
Qed.

Lemma serve_well_keyed check sign n st r :
  well_keyed st -> well_keyed (serve check sign n st r).
Proof.
  intros (Hp & Hc & Hv). pose proof (conj Hp (conj Hc Hv)) as Hall.
  destruct r as [body|body|body]; cbn [serve].
  - unfold HandleVote. destruct body as [v|]; [|exact Hall].
    destruct (Hex.DecodeString (VoterPub v)); [|exact Hall].
    destruct (Hex.DecodeString (v_Signature v)); [|exact Hall].
    destruct (ed25519_Verify check _ _ _) as [[|]|]; [|exact Hall..].
    split; [exact Hp|]. split; [exact Hc|]. cbn [votesMap].
    apply (keyed_insert (fun h voter x => BlockHash x = h /\ VoterPub x = voter));
      [exact Hv|split; reflexivity].
  - destruct body as [pm|]; [|exact Hall].
    cbn [HandlePBFTPrepare fst]. split; [|split; [exact Hc|exact Hv]]. cbn [prepares].
    apply (keyed_insert (fun s voter x => p_Seq x = s /\ p_Voter x = voter));
      [exact Hp|split; reflexivity].
  - destruct body as [cm|]; [|exact Hall].
    cbn [HandlePBFTCommit fst]. split; [exact Hp|]. split; [|exact Hv]. cbn [commits].
    apply (keyed_insert (fun s voter x => c_Seq x = s /\ c_Voter x = voter));
      [exact Hc|split; reflexivity].
Qed.

Lemma serve_keeps_votes check sign n st r :
  (forall seq, dom (inner (prepares st) seq)
               ⊆ dom (inner (prepares (serve check sign n st r)) seq))
  /\ (forall seq, dom (inner (commits st) seq)
                  ⊆ dom (inner (commits (serve check sign n st r)) seq))
  /\ (forall h, dom (inner (votesMap st) h)
                ⊆ dom (inner (votesMap (serve check sign n st r)) h)).
Proof.
  assert (Hall : (forall seq, dom (inner (prepares st) seq) ⊆ dom (inner (prepares st) seq))
    /\ (forall seq, dom (inner (commits st) seq) ⊆ dom (inner (commits st) seq))
    /\ (forall h, dom (inner (votesMap st) h) ⊆ dom (inner (votesMap st) h)))
    by (split; [|split]; intros; reflexivity).
  destruct r as [body|body|body]; cbn [serve].
  - unfold HandleVote. destruct body as [v|]; [|exact Hall].
    destruct (Hex.DecodeString (VoterPub v)); [|exact Hall].
    destruct (Hex.DecodeString (v_Signature v)); [|exact Hall].
    destruct (ed25519_Verify check _ _ _) as [[|]|]; [|exact Hall..].
    split; [intros; reflexivity|]. split; [intros; reflexivity|]. intros h. apply dom_inner_insert.
  - destruct body as [pm|]; [|exact Hall].
    cbn [HandlePBFTPrepare fst]. split; [|split; intros; reflexivity].
    intros seq. apply dom_inner_insert.
  - destruct body as [cm|]; [|exact Hall].
    cbn [HandlePBFTCommit fst]. split; [intros; reflexivity|]. split; [|intros; reflexivity].
    intros seq. apply dom_inner_insert.
Qed.

(** X19. Whatever vote, Prepare and Commit requests are served, starting
    from empty maps, every stored message sits under its own sequence
    number (or block hash) and its own voter, so the size of a set is the
    number of distinct voter strings among its messages; and no request
    ever removes a voter from a set of the state it started from. *)
Theorem vote_maps_well_keyed
    (check : list Z -> list Z -> list Z -> bool) (sign : string -> string)
    (n : Node) (reqs : list vote_request) (st : PBFT) :
  well_keyed (fold_left (serve check sign n) reqs pbft_init)
  /\ (forall seq, dom (inner (prepares st) seq)
                  ⊆ dom (inner (prepares (fold_left (serve check sign n) reqs st)) seq))
  /\ (forall seq, dom (inner (commits st) seq)
                  ⊆ dom (inner (commits (fold_left (serve check sign n) reqs st)) seq))
  /\ (forall h, dom (inner (votesMap st) h)
                ⊆ dom (inner (votesMap (fold_left (serve check sign n) reqs st)) h)).
Proof.
  split.
  - assert (H : forall s, well_keyed s -> well_keyed (fold_left (serve check sign n) reqs s)).
    { induction reqs as [|r reqs IH]; intros s Hs; [exact Hs|].
      cbn [fold_left]. apply IH, serve_well_keyed, Hs. }
    apply H. unfold well_keyed.
    split; [|split]; intros k voter x Hl; unfold inner in Hl;
      cbn [pbft_init prepares commits votesMap] in Hl;
      rewrite lookup_empty in Hl; cbn [default] in Hl;
      rewrite lookup_empty in Hl; discriminate Hl.
  - revert st. induction reqs as [|r reqs IH]; intros st;
      [split; [|split]; intros; reflexivity|].
    cbn [fold_left]. destruct (IH (serve check sign n st r)) as (H1 & H2 & H3).
    destruct (serve_keeps_votes check sign n st r) as (K1 & K2 & K3).
    split; [|split]; intros x; etransitivity; eauto.
Qed.

(** X20. [HandlePBFTPrepare] changes the prepare set of the message's own
    sequence number and nothing else, [HandlePBFTCommit] the commit set
    of its own sequence number and nothing else, and a request that does
    not decode changes nothing. What [HandlePBFTCommit] does depends on
    the commit sets only: commit finality consults neither the prepare
    sets nor any proposal. *)
Theorem prepare_and_commit_are_independent
    (sign : string -> string) (n : Node) (st : PBFT) :
  (forall pm,
      let st' := fst (HandlePBFTPrepare sign (Some pm) n st) in
      commits st' = commits st /\ votesMap st' = votesMap st
      /\ forall seq, seq <> p_Seq pm -> inner (prepares st') seq = inner (prepares st) seq)
  /\ (forall cm,
      let st' := fst (HandlePBFTCommit (Some cm) n st) in
      prepares st' = prepares st /\ votesMap st' = votesMap st
      /\ forall seq, seq <> c_Seq cm -> inner (commits st') seq = inner (commits st) seq)
  /\ fst (HandlePBFTPrepare sign None n st) = st
  /\ fst (HandlePBFTCommit None n st) = st
  /\ (forall body st2,
        commits st2 = commits st ->
        snd (HandlePBFTCommit body n st2) = snd (HandlePBFTCommit body n st)).
Proof.
  split; [|split; [|split; [|split]]].
  - intros pm st'. subst st'. cbn [HandlePBFTPrepare fst commits votesMap prepares].
    split; [reflexivity|]. split; [reflexivity|].
    intros seq Hne. apply inner_insert_ne'. congruence.
  - intros cm st'. subst st'. cbn [HandlePBFTCommit fst commits votesMap prepares].
    split; [reflexivity|]. split; [reflexivity|].
    intros seq Hne. apply inner_insert_ne'. congruence.
  - reflexivity.
  - reflexivity.
  - intros [cm|] st2 E; [|reflexivity].
    cbn [HandlePBFTCommit snd]. rewrite E. reflexivity.
Qed.

Lemma HandleVote_accepted check v n st st' acts :
  HandleVote check (Some v) n st = Ret (st', acts) ->
  st' <> st ->
  exists pubb sigb,
    Hex.DecodeString (VoterPub v) = Some pubb
    /\ Hex.DecodeString (v_Signature v) = Some sigb
    /\ ed25519_Verify check pubb
         (SHA256.bytes_of_string (BlockHash v +:+ ":" +:+ sprint_d (Round v))) sigb
       = Ret true
    /\ st' = mkPBFT (<[BlockHash v := <[VoterPub v := v]> (inner (votesMap st) (BlockHash v))]>
                       (votesMap st)) (prepares st) (commits st).
Proof.
  unfold HandleVote.
  destruct (Hex.DecodeString (VoterPub v)) as [pubb|];
    [|intros [= <- _] Hne; destruct (Hne eq_refl)].
  destruct (Hex.DecodeString (v_Signature v)) as [sigb|];
    [|intros [= <- _] Hne; destruct (Hne eq_refl)].
  destruct (ed25519_Verify check pubb _ sigb) as [[|]|] eqn:Hv;
    [|intros [= <- _] Hne; destruct (Hne eq_refl)|discriminate].
  intros [= <- _] _. exists pubb, sigb. auto.
Qed.

(** X21. [HandleVote] stores a vote only after its signature verified
    over the text "hash:round". It then touches the tally of that block
    hash alone: the tallies of other hashes and the Prepare and Commit
    sets stay as they were, and a voter already in the tally is
    overwritten without changing the count. *)
Theorem HandleVote_tally
    (check : list Z -> list Z -> list Z -> bool) (v : Vote) (n : Node)
    (st st' : PBFT) (acts : list effect) :
  HandleVote check (Some v) n st = Ret (st', acts) ->
  st' <> st ->
  (exists pubb sigb,
      Hex.DecodeString (VoterPub v) = Some pubb
      /\ Hex.DecodeString (v_Signature v) = Some sigb
      /\ ed25519_Verify check pubb
           (SHA256.bytes_of_string (BlockHash v +:+ ":" +:+ sprint_d (Round v))) sigb
         = Ret true)
  /\ prepares st' = prepares st /\ commits st' = commits st
  /\ inner (votesMap st') (BlockHash v)
     = <[VoterPub v := v]> (inner (votesMap st) (BlockHash v))
  /\ (forall h, h <> BlockHash v -> inner (votesMap st') h = inner (votesMap st) h)
  /\ (VoterPub v ∈ dom (inner (votesMap st) (BlockHash v)) ->
      size (dom (inner (votesMap st') (BlockHash v)))
      = size (dom (inner (votesMap st) (BlockHash v)))).
Proof.
  intros Hh Hne.
  destruct (HandleVote_accepted _ _ _ _ _ _ Hh Hne) as (pubb & sigb & Hp & Hs & Hv & ->).
  split; [exists pubb, sigb; auto|]. cbn [prepares commits votesMap].
  split; [reflexivity|]. split; [reflexivity|].
  split; [apply inner_insert_eq'|].
  split; [intros h Hneq; apply inner_insert_ne'; congruence|].
  intros Hin. rewrite inner_insert_eq', dom_insert_L. f_equal. set_solver.
Qed.

Lemma HandleVote_tally_witness :
  (exists pubb sigb,
      Hex.DecodeString (VoterPub sample_vote) = Some pubb
      /\ Hex.DecodeString (v_Signature sample_vote) = Some sigb
      /\ ed25519_Verify accept_all pubb
           (SHA256.bytes_of_string
              (BlockHash sample_vote +:+ ":" +:+ sprint_d (Round sample_vote))) sigb
         = Ret true)
  /\ prepares (serve accept_all no_key roster4 pbft_init (ReqVote (Some sample_vote)))
     = prepares pbft_init
  /\ commits (serve accept_all no_key roster4 pbft_init (ReqVote (Some sample_vote)))
     = commits pbft_init
  /\ inner (votesMap (serve accept_all no_key roster4 pbft_init (ReqVote (Some sample_vote))))
       (BlockHash sample_vote)
     = <[VoterPub sample_vote := sample_vote]>
         (inner (votesMap pbft_init) (BlockHash sample_vote))
  /\ (forall h, h <> BlockHash sample_vote ->
        inner (votesMap (serve accept_all no_key roster4 pbft_init
                           (ReqVote (Some sample_vote)))) h
        = inner (votesMap pbft_init) h)
  /\ (VoterPub sample_vote ∈ dom (inner (votesMap pbft_init) (BlockHash sample_vote)) ->
      size (dom (inner (votesMap (serve accept_all no_key roster4 pbft_init
                                    (ReqVote (Some sample_vote))))
                   (BlockHash sample_vote)))
      = size (dom (inner (votesMap pbft_init) (BlockHash sample_vote)))).
Proof.
  apply (HandleVote_tally accept_all sample_vote roster4 pbft_init
           (serve accept_all no_key roster4 pbft_init (ReqVote (Some sample_vote)))
           (snd (match HandleVote accept_all (Some sample_vote) roster4 pbft_init with
                 | Ret r => r
                 | Panic => (pbft_init, [])
                 end))).
  - vm_compute. reflexivity.
  - intros E. apply (f_equal (fun s => size (inner (votesMap s) "aa"))) in E.
    vm_compute in E. discriminate E.
Defined.

(** X22. [HandleVote] files a vote under the text of the voter's key, so
    the same key spelled differently in hexadecimal (capital digits, say)
    is a second voter: when a vote is accepted and the same vote is sent
    again with the key respelled, it is accepted again and the tally of
    the block hash grows by two in all. *)
Theorem respelled_key_counts_twice
    (check : list Z -> list Z -> list Z -> bool) (v : Vote) (pub2 : string)
    (n : Node) (st st1 : PBFT) (acts1 : list effect) :
  HandleVote check (Some v) n st = Ret (st1, acts1) ->
  st1 <> st ->
  pub2 <> VoterPub v ->
  Hex.DecodeString pub2 = Hex.DecodeString (VoterPub v) ->
  VoterPub v ∉ dom (inner (votesMap st) (BlockHash v)) ->
  pub2 ∉ dom (inner (votesMap st) (BlockHash v)) ->
  exists st2 acts2,
    HandleVote check (Some (with_VoterPub pub2 v)) n st1 = Ret (st2, acts2)
    /\ size (inner (votesMap st2) (BlockHash v))
       = (size (inner (votesMap st) (BlockHash v)) + 2)%nat.
Proof.
  intros Hh Hne Hp2 Hdec Hn1 Hn2.
  destruct (HandleVote_accepted _ _ _ _ _ _ Hh Hne) as (pubb & sigb & Hp & Hs & Hv & ->).
  unfold HandleVote. cbn [with_VoterPub VoterPub v_Signature BlockHash Round votesMap].
  rewrite Hdec, Hp, Hs, Hv. eexists _, _. split; [reflexivity|].
  cbn [votesMap]. rewrite !inner_insert_eq'.
  rewrite not_elem_of_dom in Hn1, Hn2.
  rewrite map_size_insert_None, map_size_insert_None; [lia|exact Hn1|].
  rewrite lookup_insert_ne by congruence. exact Hn2.
Qed.

Lemma respelled_key_counts_twice_witness :
  exists st2 acts2,
    HandleVote accept_all (Some (with_VoterPub capital_key sample_vote)) roster4
      (serve accept_all no_key roster4 pbft_init (ReqVote (Some sample_vote)))
    = Ret (st2, acts2)
    /\ size (inner (votesMap st2) (BlockHash sample_vote))
       = (size (inner (votesMap pbft_init) (BlockHash sample_vote)) + 2)%nat.
Proof.
  apply (respelled_key_counts_twice accept_all sample_vote capital_key roster4 pbft_init
           (serve accept_all no_key roster4 pbft_init (ReqVote (Some sample_vote)))
           (snd (match HandleVote accept_all (Some sample_vote) roster4 pbft_init with
                 | Ret r => r
                 | Panic => (pbft_init, [])
                 end))).
  - vm_compute. reflexivity.
  - intros E. apply (f_equal (fun s => size (inner (votesMap s) "aa"))) in E.
    vm_compute in E. discriminate E.
  - discriminate.
  - vm_compute. reflexivity.
  - apply not_elem_of_dom. reflexivity.
  - apply not_elem_of_dom. reflexivity.
Defined.

(** ** Proposals *)

(** X23. [HandlePBFTPrePrepare] answers 400 and leaves every PBFT
    variable as it was when the request does not decode, when it carries
    no block, or when the block's signature does not verify. *)
Theorem HandlePBFTPrePrepare_rejects
    (check : list Z -> list Z -> list Z -> bool) (sign : string -> string)
    (body : option PrePrepare) (n : Node) (g : Globals) :
  body = None
  \/ (exists pp, body = Some pp
        /\ (pp_Block pp = None
            \/ exists b, pp_Block pp = Some b /\ VerifyBlockSignature check b = Ret false)) ->
  exists text,
    HandlePBFTPrePrepare check sign body n g = Ret (g, [Do (HttpError text 400)]).
Proof.
  intros [-> | (pp & -> & [Hb | (b & Hb & Hv)])]; unfold HandlePBFTPrePrepare.
  - exists "invalid". reflexivity.
  - rewrite Hb. exists "bad block sig". reflexivity.
  - rewrite Hb, Hv. exists "bad block sig". reflexivity.
Qed.

Lemma HandlePBFTPrePrepare_rejects_witness :
  exists text,
    HandlePBFTPrePrepare accept_all no_key
      (Some (mkPrePrepare 0 1 (Some block1) ":8080" "")) roster4 globals_init
    = Ret (globals_init, [Do (HttpError text 400)]).
Proof.
  apply (HandlePBFTPrePrepare_rejects accept_all no_key
           (Some (mkPrePrepare 0 1 (Some block1) ":8080" "")) roster4 globals_init).
  right. exists (mkPrePrepare 0 1 (Some block1) ":8080" "").
  split; [reflexivity|]. right. exists block1. split; reflexivity.
Defined.

(** X24. When the block of a proposal verifies, [HandlePBFTPrePrepare]
    files the proposal under its sequence number, replacing whatever
    proposal was there, and posts to every roster entry a Prepare for the
    hash stored in the block. It records no vote of its own: all prepare
    and commit sets stay as they were. The leader and the signature of
    the proposal play no part in what is posted. *)
Theorem HandlePBFTPrePrepare_accepts
    (check : list Z -> list Z -> list Z -> bool) (sign : string -> string)
    (pp : PrePrepare) (b : Block) (n : Node) (g : Globals) :
  pp_Block pp = Some b ->
  VerifyBlockSignature check b = Ret true ->
  let prep := mkPrepare (pp_View pp) (pp_Seq pp) (Hash b) (":" +:+ Port n)
                (sign (vote_text (Hash b) (pp_Seq pp) (pp_View pp))) in
  let acts := map (fun addr => PostPrepare addr prep) (getValidatorList n)
              ++ [Do (HttpWrite ok_body)] in
  exists g',
    HandlePBFTPrePrepare check sign (Some pp) n g = Ret (g', acts)
    /\ prePrepares g' !! pp_Seq pp = Some pp
    /\ (forall seq, seq <> pp_Seq pp -> prePrepares g' !! seq = prePrepares g !! seq)
    /\ (forall seq, inner (prepares (tallies g')) seq = inner (prepares (tallies g)) seq)
    /\ commits (tallies g') = commits (tallies g)
    /\ pbftSeq g' = pbftSeq g
    /\ (forall leader s,
          exists g2,
            HandlePBFTPrePrepare check sign
              (Some (mkPrePrepare (pp_View pp) (pp_Seq pp) (Some b) leader s)) n g
            = Ret (g2, acts)).
Proof.
  intros Hb Hv prep acts. unfold HandlePBFTPrePrepare. rewrite Hb, Hv.
  eexists. split; [reflexivity|]. cbn [prePrepares tallies prepares commits pbftSeq].
  split; [apply lookup_insert_eq|].
  split; [intros seq Hne; apply lookup_insert_ne; congruence|].
  split.
  - intros seq. destruct (prepares (tallies g) !! pp_Seq pp) as [set|] eqn:El;
      [reflexivity|].
    destruct (decide (pp_Seq pp = seq)) as [<-|Hne].
    + rewrite inner_insert_eq'. unfold inner. rewrite El. reflexivity.
    + apply inner_insert_ne'. exact Hne.
  - split; [reflexivity|]. split; [reflexivity|].
    intros leader s. cbn [pp_Block pp_Seq pp_View]. rewrite Hv.
    eexists. reflexivity.
Qed.

Lemma HandlePBFTPrePrepare_accepts_witness :
  let pp := mkPrePrepare 0 1 (Some signed_block1) ":9000" "" in
  let prep := mkPrepare (pp_View pp) (pp_Seq pp) (Hash signed_block1) (":" +:+ Port roster4)
                (no_key (vote_text (Hash signed_block1) (pp_Seq pp) (pp_View pp))) in
  let acts := map (fun addr => PostPrepare addr prep) (getValidatorList roster4)
              ++ [Do (HttpWrite ok_body)] in
  exists g',
    HandlePBFTPrePrepare accept_all no_key (Some pp) roster4 globals_init = Ret (g', acts)
    /\ prePrepares g' !! pp_Seq pp = Some pp
    /\ (forall seq, seq <> pp_Seq pp ->
          prePrepares g' !! seq = prePrepares globals_init !! seq)
    /\ (forall seq, inner (prepares (tallies g')) seq
                    = inner (prepares (tallies globals_init)) seq)
    /\ commits (tallies g') = commits (tallies globals_init)
    /\ pbftSeq g' = pbftSeq globals_init
    /\ (forall leader s,
          exists g2,
            HandlePBFTPrePrepare accept_all no_key
              (Some (mkPrePrepare (pp_View pp) (pp_Seq pp) (Some signed_block1) leader s))
              roster4 globals_init
            = Ret (g2, acts)).
Proof.
  apply (HandlePBFTPrePrepare_accepts accept_all no_key
           (mkPrePrepare 0 1 (Some signed_block1) ":9000" "") signed_block1
           roster4 globals_init).
  - reflexivity.
  - vm_compute. reflexivity.
Defined.

(** X25. [proposeBlockToValidators] files its proposal under the current
    sequence number, whatever was filed there, and moves to the next
    number, which always differs: two proposals in a row are both kept,
    under consecutive numbers, each posted once per roster entry, and
    the vote maps are not touched. *)
Theorem consecutive_proposals
    (sign : string -> string) (b1 b2 : Block) (n : Node) (g : Globals) :
  let r1 := proposeBlockToValidators sign b1 n g in
  let r2 := proposeBlockToValidators sign b2 n (fst r1) in
  let s1 := pbftSeq g in
  let s2 := add_int s1 1 in
  let pre k b := mkPrePrepare (pbftView g) k (Some b) (":" +:+ Port n)
                   (sign (vote_text (Hash b) k (pbftView g))) in
  s2 <> s1
  /\ pbftSeq (fst r2) = add_int s2 1
  /\ prePrepares (fst r2) !! s1 = Some (pre s1 b1)
  /\ prePrepares (fst r2) !! s2 = Some (pre s2 b2)
  /\ (forall k, k <> s1 -> k <> s2 -> prePrepares (fst r2) !! k = prePrepares g !! k)
  /\ snd r1 = map (fun addr => PostPrePrepare addr (pre s1 b1)) (getValidatorList n)
  /\ snd r2 = map (fun addr => PostPrePrepare addr (pre s2 b2)) (getValidatorList n)
  /\ tallies (fst r2) = tallies g.
Proof.
  cbv zeta. cbn [proposeBlockToValidators fst snd pbftSeq pbftView prePrepares tallies].
  pose proof (add_int_1_neq (pbftSeq g)) as Hne.
  split; [exact Hne|]. split; [reflexivity|].
  split; [rewrite lookup_insert_ne by exact Hne; apply lookup_insert_eq|].
  split; [apply lookup_insert_eq|].
  split; [intros k H1 H2; rewrite !lookup_insert_ne by congruence; reflexivity|].
  split; [reflexivity|]. split; reflexivity.
Qed.

(** X26. One proposal through the three handlers: the Prepare a
    validator posts for a proposal made by [proposeBlockToValidators],
    and the Commit a validator posts for that Prepare, carry the view,
    the sequence number and the block hash of the proposal unchanged, and
    all three signatures are made over one and the same text: with the
    same key they are equal. *)
Theorem proposal_flows_unchanged
    (check : list Z -> list Z -> list Z -> bool) (sign : string -> string)
    (b : Block) (n1 n2 n3 : Node) (g1 g2 g2' : Globals) (st3 : PBFT)
    (acts2 : list action) (a1 a2 a3 : string)
    (pre : PrePrepare) (prep : PrepareMsg) (cm : CommitMsg) :
  In (PostPrePrepare a1 pre) (snd (proposeBlockToValidators sign b n1 g1)) ->
  HandlePBFTPrePrepare check sign (Some pre) n2 g2 = Ret (g2', acts2) ->
  In (PostPrepare a2 prep) acts2 ->
  In (PostCommit a3 cm) (snd (HandlePBFTPrepare sign (Some prep) n3 st3)) ->
  (p_View prep, p_Seq prep, p_Hash prep) = (pbftView g1, pbftSeq g1, Hash b)
  /\ (c_View cm, c_Seq cm, c_Hash cm) = (pbftView g1, pbftSeq g1, Hash b)
  /\ pp_Sig pre = sign (vote_text (Hash b) (pbftSeq g1) (pbftView g1))
  /\ p_Sig prep = pp_Sig pre
  /\ c_Sig cm = pp_Sig pre.
Proof.
  intros H1 H2 H3 H4.
  cbn [proposeBlockToValidators snd] in H1. apply in_map_iff in H1.
  destruct H1 as (addr1 & [= _ <-] & _).
  unfold HandlePBFTPrePrepare in H2. cbn [pp_Block pp_Seq pp_View] in H2.
  destruct (VerifyBlockSignature check b) as [[|]|]; [|injection H2 as _ <-|discriminate].
  - injection H2 as _ <-. apply in_app_iff in H3. destruct H3 as [H3|[H3|[]]]; [|discriminate H3].
    apply in_map_iff in H3. destruct H3 as (addr2 & [= _ <-] & _).
    cbn [HandlePBFTPrepare snd p_View p_Seq p_Hash p_Voter] in H4.
    destruct (_ <=? _)%nat in H4.
    + apply in_app_iff in H4. destruct H4 as [H4|[H4|[]]]; [|discriminate H4].
      apply in_map_iff in H4. destruct H4 as (addr3 & [= _ <-] & _).
      cbn. repeat split.
    + destruct H4 as [H4|[]]. discriminate H4.
  - destruct H3 as [H3|[]]. discriminate H3.
Qed.

Lemma proposal_flows_unchanged_witness :
  let pre := mkPrePrepare 0 1 (Some signed_block1) ":8080" (no_key "x") in
  let prep := mkPrepare 0 1 (Hash signed_block1) ":8080" (no_key "x") in
  let cm := mkCommit 0 1 (Hash signed_block1) ":8080" (no_key "x") in
  (p_View prep, p_Seq prep, p_Hash prep)
    = (pbftView globals_init, pbftSeq globals_init, Hash signed_block1)
  /\ (c_View cm, c_Seq cm, c_Hash cm)
     = (pbftView globals_init, pbftSeq globals_init, Hash signed_block1)
  /\ pp_Sig pre
     = no_key (vote_text (Hash signed_block1) (pbftSeq globals_init) (pbftView globals_init))
  /\ p_Sig prep = pp_Sig pre
  /\ c_Sig cm = pp_Sig pre.
Proof.
  apply (proposal_flows_unchanged accept_all no_key signed_block1 roster1 roster1 roster1
           globals_init globals_init
           (mkGlobals {[1 := mkPrePrepare 0 1 (Some signed_block1) ":8080" ""]} 1 0
              (mkPBFT ∅ {[1 := ∅]} ∅))
           pbft_init
           [PostPrepare "v1" (mkPrepare 0 1 (Hash signed_block1) ":8080" "");
            Do (HttpWrite ok_body)]
           "v1" "v1" "v1").
  - vm_compute. left. reflexivity.
  - vm_compute. reflexivity.
  - left. reflexivity.
  - vm_compute. left. reflexivity.
Defined.

(** ** The "tx" case *)

Lemma SignBlock_fields sign b k :
  Index (snd (SignBlock sign b k)) = Index b
  /\ PrevHash (snd (SignBlock sign b k)) = PrevHash b
  /\ Hash (snd (SignBlock sign b k)) = Hash b
  /\ Data (snd (SignBlock sign b k)) = Data b
  /\ calculateHash (snd (SignBlock sign b k)) = calculateHash b.
Proof.
  unfold SignBlock. destruct (Hex.DecodeString k) as [priv|]; [|repeat split].
  destruct (negb (length priv =? 64)%nat); repeat split.
Qed.

(** * The ledger as shipped *)

(** ** The mutex *)

Lemma Mu_Latest_unlocked bc :
  Mu.Latest (Mu.guard bc Mu.Unlocked) = Mu.Returns (Latest bc) (Mu.guard bc Mu.Unlocked).
Proof. reflexivity. Qed.

Lemma Mu_Latest_locked g : Mu.mu g = Mu.Locked -> Mu.Latest g = Mu.Hangs g.
Proof.
  intros Hm. unfold Mu.Latest, Mu.bind, Mu.RLock. rewrite Hm. reflexivity.
Qed.

(** [AddBlock] on a free mutex: [Lock] succeeds, and [RLock] in [Latest]
    then waits for the lock its own caller holds. *)
Lemma Mu_AddBlock_hangs b bc :
  Mu.AddBlock b (Mu.guard bc Mu.Unlocked) = Mu.Hangs (Mu.guard bc Mu.Locked).
Proof. reflexivity. Qed.

(** [AddBlock] in any state of the mutex: it waits at [Lock], or at the
    [RLock] of [Latest]; the chain is not touched. *)
Lemma Mu_AddBlock_blocks b g :
  exists m, Mu.AddBlock b g = Mu.Hangs (Mu.guard (Mu.store g) m).
Proof.
  destruct g as [bc [|k|]].
  - exists Mu.Locked. reflexivity.
  - exists (Mu.RLocked k). reflexivity.
  - exists Mu.Locked. reflexivity.
Qed.

Lemma Mu_AddBlock_no_return b g r g' : Mu.AddBlock b g <> Mu.Returns r g'.
Proof.
  destruct (Mu_AddBlock_blocks b g) as [m ->]. discriminate.
Qed.

Lemma Mu_GenerateBlock_unlocked fuel now data bc :
  Mu.GenerateBlock fuel now data (Mu.guard bc Mu.Unlocked)
  = match GenerateBlock fuel now data bc with
    | Some b => Mu.Returns b (Mu.guard bc Mu.Unlocked)
    | None => Mu.Unfinished
    end.
Proof.
  unfold Mu.GenerateBlock, Mu.bind. rewrite Mu_Latest_unlocked.
  unfold GenerateBlock. destruct (Latest bc); reflexivity.
Qed.

(** C1. The three checks of [AddBlock] are never reached. On every chain
    and every block the call takes the write lock and then, in [Latest],
    asks for a read lock on the same mutex: it waits there for ever, in
    the state where the lock is held and the chain is as it was. It
    returns neither true nor false, in no state of the mutex, and this
    whether or not the block has the next index, links to the latest
    hash and carries its own digest. *)
Theorem AddBlock_never_returns (b : Block) (bc : Blockchain) :
  Mu.Lock (Mu.guard bc Mu.Unlocked) = Mu.Returns tt (Mu.guard bc Mu.Locked)
  /\ Mu.Latest (Mu.guard bc Mu.Locked) = Mu.Hangs (Mu.guard bc Mu.Locked)
  /\ Mu.AddBlock b (Mu.guard bc Mu.Unlocked) = Mu.Hangs (Mu.guard bc Mu.Locked)
  /\ (forall g r g', Mu.AddBlock b g <> Mu.Returns r g')
  /\ (forall g, exists m, Mu.AddBlock b g = Mu.Hangs (Mu.guard (Mu.store g) m)).
Proof.
  split; [reflexivity|]. split; [reflexivity|]. split; [apply Mu_AddBlock_hangs|].
  split; [intros g r g'; apply Mu_AddBlock_no_return|].
  intros g; apply Mu_AddBlock_blocks.
Qed.

(** Scenario B: the block mined for "hello" passes the three checks
    against the genesis block, and [AddBlock] still does not return on
    it. *)
Example AddBlock_hangs_on_admissible_block :
  admissible genesis_block block1
  /\ Latest genesis_chain = Some genesis_block
  /\ Mu.AddBlock block1 (Mu.guard genesis_chain Mu.Unlocked)
     = Mu.Hangs (Mu.guard genesis_chain Mu.Locked).
Proof.
  split; [|split; [vm_compute; reflexivity|apply Mu_AddBlock_hangs]].
  split; [vm_compute; reflexivity|]. split; vm_compute; reflexivity.
Qed.



(** C10. On the empty chain [Latest], called on its own, returns the nil
    pointer and releases its lock; called by [AddBlock], it waits for the
    lock [AddBlock] holds. No block is appended to the empty chain and
    the call does not return. *)
Theorem AddBlock_hangs_on_empty_chain (b : Block) (bc : Blockchain) :
  chain bc = [] ->
  Mu.Latest (Mu.guard bc Mu.Unlocked) = Mu.Returns None (Mu.guard bc Mu.Unlocked)
  /\ Mu.AddBlock b (Mu.guard bc Mu.Unlocked) = Mu.Hangs (Mu.guard bc Mu.Locked)
  /\ chain (Mu.store (Mu.guard bc Mu.Locked)) = []
  /\ (forall r g', Mu.AddBlock b (Mu.guard bc Mu.Unlocked) <> Mu.Returns r g').
Proof.
  intros He. split.
  - rewrite Mu_Latest_unlocked. unfold Latest. rewrite He. reflexivity.
  - split; [apply Mu_AddBlock_hangs|]. split; [exact He|].
    intros r g'. apply Mu_AddBlock_no_return.
Qed.

Lemma AddBlock_hangs_on_empty_chain_witness :
  Mu.Latest (Mu.guard NewBlockchain Mu.Unlocked)
  = Mu.Returns None (Mu.guard NewBlockchain Mu.Unlocked)
  /\ Mu.AddBlock junk_block (Mu.guard NewBlockchain Mu.Unlocked)
     = Mu.Hangs (Mu.guard NewBlockchain Mu.Locked)
  /\ chain (Mu.store (Mu.guard NewBlockchain Mu.Locked)) = []
  /\ (forall r g',
        Mu.AddBlock junk_block (Mu.guard NewBlockchain Mu.Unlocked) <> Mu.Returns r g').
Proof.
  apply (AddBlock_hangs_on_empty_chain junk_block NewBlockchain). reflexivity.
Defined.

(** ** The handlers that make a block *)

(** X9. [HandlePostTx] answers 400 without touching the chain when the
    body does not decode. When it decodes, the handler never answers:
    once mining returns it waits in [AddBlock], holding the lock, with
    the chain as it was; it sends neither 201 nor 500, saves nothing and
    broadcasts nothing. *)
Theorem HandlePostTx_outcomes
    (fuel : nat) (now data : string) (bc : Blockchain) (b : Block) :
  GenerateBlock fuel now data bc = Some b ->
  Mu.HandlePostTx fuel now None (Mu.guard bc Mu.Unlocked)
  = Mu.Returns [Do (HttpError "invalid body" 400)] (Mu.guard bc Mu.Unlocked)
  /\ Mu.HandlePostTx fuel now (Some data) (Mu.guard bc Mu.Unlocked)
     = Mu.Hangs (Mu.guard bc Mu.Locked)
  /\ (forall fuel' now' data' acts g',
        Mu.HandlePostTx fuel' now' (Some data') (Mu.guard bc Mu.Unlocked)
        <> Mu.Returns acts g').
Proof.
  intros Hg. split; [reflexivity|]. split.
  - unfold Mu.HandlePostTx, Mu.bind. rewrite Mu_GenerateBlock_unlocked, Hg.
    rewrite Mu_AddBlock_hangs. reflexivity.
  - intros fuel' now' data' acts g'. unfold Mu.HandlePostTx, Mu.bind.
    rewrite Mu_GenerateBlock_unlocked.
    destruct (GenerateBlock fuel' now' data' bc); [|discriminate].
    rewrite Mu_AddBlock_hangs. discriminate.
Qed.

Lemma HandlePostTx_outcomes_witness :
  Mu.HandlePostTx 166 t0 None (Mu.guard genesis_chain Mu.Unlocked)
  = Mu.Returns [Do (HttpError "invalid body" 400)] (Mu.guard genesis_chain Mu.Unlocked)
  /\ Mu.HandlePostTx 166 t0 (Some "hello") (Mu.guard genesis_chain Mu.Unlocked)
     = Mu.Hangs (Mu.guard genesis_chain Mu.Locked)
  /\ (forall fuel' now' data' acts g',
        Mu.HandlePostTx fuel' now' (Some data') (Mu.guard genesis_chain Mu.Unlocked)
        <> Mu.Returns acts g').
Proof.
  apply (HandlePostTx_outcomes 166 t0 "hello" genesis_chain block1).
  vm_compute. reflexivity.
Defined.

(** X27. In the "tx" case the connection handler never answers: with a
    block from the bridge, or with the block it mines itself, signed or
    not, it calls [AddBlock] and waits there, holding the lock, with the
    chain as it was; nothing is posted to the observer and nothing is
    broadcast. *)
Theorem handleTx_blocks_in_AddBlock
    (sign : list Z -> list Z -> list Z) (fuel : nat) (now data : string)
    (keyfile : option string) (bc : Blockchain) (b : Block) :
  GenerateBlock fuel now data bc = Some b ->
  Mu.handleTx sign fuel now None keyfile data (Mu.guard bc Mu.Unlocked)
  = Mu.Hangs (Mu.guard bc Mu.Locked)
  /\ (forall bb,
        Mu.handleTx sign fuel now (Some bb) keyfile data (Mu.guard bc Mu.Unlocked)
        = Mu.Hangs (Mu.guard bc Mu.Locked))
  /\ (forall fuel' now' bridge keyfile' data' effs g',
        Mu.handleTx sign fuel' now' bridge keyfile' data' (Mu.guard bc Mu.Unlocked)
        <> Mu.Returns effs g').
Proof.
  intros Hg. split; [|split].
  - unfold Mu.handleTx, Mu.bind. rewrite Mu_GenerateBlock_unlocked, Hg.
    rewrite Mu_AddBlock_hangs. reflexivity.
  - intros bb. unfold Mu.handleTx, Mu.bind, Mu.ret.
    rewrite Mu_AddBlock_hangs. reflexivity.
  - intros fuel' now' bridge keyfile' data' effs g'. unfold Mu.handleTx, Mu.bind.
    destruct bridge as [bb|].
    + unfold Mu.ret. rewrite Mu_AddBlock_hangs. discriminate.
    + rewrite Mu_GenerateBlock_unlocked.
      destruct (GenerateBlock fuel' now' data' bc); [|discriminate].
      rewrite Mu_AddBlock_hangs. discriminate.
Qed.

Lemma handleTx_blocks_in_AddBlock_witness :
  Mu.handleTx toy_sign 166 t0 None (Some toy_priv_hex) "hello"
    (Mu.guard genesis_chain Mu.Unlocked)
  = Mu.Hangs (Mu.guard genesis_chain Mu.Locked)
  /\ (forall bb,
        Mu.handleTx toy_sign 166 t0 (Some bb) (Some toy_priv_hex) "hello"
          (Mu.guard genesis_chain Mu.Unlocked)
        = Mu.Hangs (Mu.guard genesis_chain Mu.Locked))
  /\ (forall fuel' now' bridge keyfile' data' effs g',
        Mu.handleTx toy_sign fuel' now' bridge keyfile' data'
          (Mu.guard genesis_chain Mu.Unlocked)
        <> Mu.Returns effs g').
Proof.
  apply (handleTx_blocks_in_AddBlock toy_sign 166 t0 "hello" (Some toy_priv_hex)
           genesis_chain block1).
  vm_compute. reflexivity.
Defined.

(** X28. One turn of the gossip transaction loop returns at once, with
    chain and mutex as they were, on the node's own message and on a
    body that does not decode; on any other message it never finishes:
    once mining returns it waits in [AddBlock] and publishes nothing. *)
Theorem handleTxMessage_outcomes
    (fuel : nat) (now data : string) (bc : Blockchain) (b : Block) :
  GenerateBlock fuel now data bc = Some b ->
  (forall body g, Mu.handleTxMessage fuel now true body g = Mu.Returns [] g)
  /\ (forall g, Mu.handleTxMessage fuel now false None g = Mu.Returns [] g)
  /\ Mu.handleTxMessage fuel now false (Some data) (Mu.guard bc Mu.Unlocked)
     = Mu.Hangs (Mu.guard bc Mu.Locked)
  /\ (forall fuel' now' data' acts g',
        Mu.handleTxMessage fuel' now' false (Some data') (Mu.guard bc Mu.Unlocked)
        <> Mu.Returns acts g').
Proof.
  intros Hg. split; [reflexivity|]. split; [reflexivity|]. split.
  - unfold Mu.handleTxMessage, Mu.bind. rewrite Mu_GenerateBlock_unlocked, Hg.
    rewrite Mu_AddBlock_hangs. reflexivity.
  - intros fuel' now' data' acts g'. unfold Mu.handleTxMessage, Mu.bind.
    rewrite Mu_GenerateBlock_unlocked.
    destruct (GenerateBlock fuel' now' data' bc); [|discriminate].
    rewrite Mu_AddBlock_hangs. discriminate.
Qed.

Lemma handleTxMessage_outcomes_witness :
  (forall body g, Mu.handleTxMessage 166 t0 true body g = Mu.Returns [] g)
  /\ (forall g, Mu.handleTxMessage 166 t0 false None g = Mu.Returns [] g)
  /\ Mu.handleTxMessage 166 t0 false (Some "hello") (Mu.guard genesis_chain Mu.Unlocked)
     = Mu.Hangs (Mu.guard genesis_chain Mu.Locked)
  /\ (forall fuel' now' data' acts g',
        Mu.handleTxMessage fuel' now' false (Some data')
          (Mu.guard genesis_chain Mu.Unlocked)
        <> Mu.Returns acts g').
Proof.
  apply (handleTxMessage_outcomes 166 t0 "hello" genesis_chain block1).
  vm_compute. reflexivity.
Defined.

